(** * faxitron/ham.py: Hamamatsu sensor driver

    A shallow embedding of the command channel ([cmd1], [bulk1]), the
    streaming capture engine ([CapImgN]) and the frame decoder ([decode])
    of [faxitron/ham.py], with the properties of the driver's specification
    stated and settled against it.

    Conventions.  Python [bytes]/[bytearray] values are [list byte]; Python
    integers are [Z]; lengths and loop indices ([range]) are [nat].  A call
    that may raise returns a [result]; the methods of [CapImgN], which
    mutate [self] before they raise, run in the monad [M], which threads the
    object through exceptions too. *)

From Stdlib Require Import ZArith Lia Bool List Strings.Byte.
From stdpp Require Import base list gmap sorting.
Import ListNotations.
Local Open Scope Z_scope.

(** ** Exceptions and results *)

Inductive exn : Type :=
| StructError          (* struct.error *)
| AssertionError
| IndexError
| TypeError
| AttributeError
| USBError             (* raised by the transport *)
| ValidateFailed       (* Exception('failed validate: ...') *)
| TimeoutAfter (elapsed : Z).  (* Exception("timeout after %s" % elapsed) *)

Inductive result (A : Type) : Type :=
| Ok (a : A)
| Raise (e : exn).
Arguments Ok {A} a.
Arguments Raise {A} e.

Definition rbind {A B} (r : result A) (k : A -> result B) : result B :=
  match r with
  | Ok a => k a
  | Raise e => Raise e
  end.

Declare Scope result_scope.
Delimit Scope result_scope with result.
Notation "'do' x <- c ; k" := (rbind c (fun x => k))
  (at level 10, x name, c at level 100, k at level 200) : result_scope.

(** ** Bytes *)

Abbreviation bytes := (list byte).

Definition Z_of_byte (b : byte) : Z := Z.of_N (Byte.to_N b).

Definition byte_of_Z (z : Z) : byte :=
  match Byte.of_N (Z.to_N (z mod 256)) with
  | Some b => b
  | None => x00
  end.

(** Python slice [l[lo:hi]] for [0 <= lo], [0 <= hi]: out-of-range bounds
    are clamped, [hi < lo] gives the empty sequence. *)
Definition slice {A} (l : list A) (lo hi : nat) : list A :=
  take (hi - lo)%nat (drop lo l).

(** ** The [struct] module, for the formats the driver uses *)

Inductive byteorder : Type := BigEndian | LittleEndian.   (* '>' and '<' *)
Inductive fmtcode : Type := fmt_H | fmt_I.                (* 'H' and 'I' *)

Definition fmt_size (c : fmtcode) : nat :=
  match c with
  | fmt_H => 2
  | fmt_I => 4
  end.

Definition calcsize (cs : list fmtcode) : nat :=
  foldr (fun c n => (fmt_size c + n)%nat) 0%nat cs.

(** Little-endian digits of [z] on [k] bytes, and back. *)
Fixpoint le_bytes (k : nat) (z : Z) : bytes :=
  match k with
  | O => []
  | S k' => byte_of_Z z :: le_bytes k' (z / 256)
  end.

Fixpoint le_value (bs : bytes) : Z :=
  match bs with
  | [] => 0
  | b :: bs' => Z_of_byte b + 256 * le_value bs'
  end.

Definition int_bytes (o : byteorder) (k : nat) (z : Z) : bytes :=
  match o with
  | LittleEndian => le_bytes k z
  | BigEndian => rev (le_bytes k z)
  end.

Definition int_value (o : byteorder) (bs : bytes) : Z :=
  match o with
  | LittleEndian => le_value bs
  | BigEndian => le_value (rev bs)
  end.

(** An argument of [struct.pack] as the driver passes it: an integer, or a
    tuple of integers. *)
Inductive pyval : Type :=
| PyInt (z : Z)
| PyTuple (zs : list Z).

(** One item of [struct.pack]: the argument has to be an integer in the
    range of the format code. *)
Definition pack_item (o : byteorder) (c : fmtcode) (v : pyval) : result bytes :=
  match v with
  | PyInt z =>
      if (0 <=? z) && (z <? 256 ^ Z.of_nat (fmt_size c))
      then Ok (int_bytes o (fmt_size c) z)
      else Raise StructError
  | PyTuple _ => Raise StructError
  end.

Fixpoint pack_items (o : byteorder) (cs : list fmtcode) (vs : list pyval)
  : result bytes :=
  match cs, vs with
  | [], [] => Ok []
  | c :: cs', v :: vs' =>
      (do b <- pack_item o c v;
       do bs <- pack_items o cs' vs';
       Ok (b ++ bs))%result
  | _, _ => Raise StructError
  end.

(** [struct.pack(fmt, *args)]: "pack expected N items for packing (got M)"
    when the number of arguments is not the number of format codes. *)
Definition struct_pack (o : byteorder) (cs : list fmtcode) (args : list pyval)
  : result bytes :=
  if Nat.eqb (length args) (length cs)
  then pack_items o cs args
  else Raise StructError.

Fixpoint unpack_items (o : byteorder) (cs : list fmtcode) (buff : bytes)
  : list Z :=
  match cs with
  | [] => []
  | c :: cs' =>
      int_value o (take (fmt_size c) buff)
        :: unpack_items o cs' (drop (fmt_size c) buff)
  end.

(** [struct.unpack(fmt, buff)]: "unpack requires a buffer of N bytes" unless
    the buffer has exactly the size of the format. *)
Definition struct_unpack (o : byteorder) (cs : list fmtcode) (buff : bytes)
  : result (list Z) :=
  if Nat.eqb (length buff) (calcsize cs)
  then Ok (unpack_items o cs buff)
  else Raise StructError.

(** [struct.unpack(fmt, buff)[0]] for a one-item format. *)
Definition unpack1 (o : byteorder) (c : fmtcode) (buff : bytes) : result Z :=
  (do vs <- struct_unpack o [c] buff;
   match vs with
   | v :: _ => Ok v
   | [] => Raise IndexError
   end)%result.

Definition unpack32ub : bytes -> result Z := unpack1 BigEndian fmt_I.
Definition unpack32ul : bytes -> result Z := unpack1 LittleEndian fmt_I.
Definition unpack16ub : bytes -> result Z := unpack1 BigEndian fmt_H.
Definition unpack16ul : bytes -> result Z := unpack1 LittleEndian fmt_H.
Definition unpack16_le : bytes -> result Z := unpack1 LittleEndian fmt_H.

(** ** Constants *)

Definition PIX_MAX : Z := 0x3FFF.
Definition MSG_ABORTED : Z := 0x8001.
Definition MSG_BEGIN : Z := 0x8002.
Definition MSG_END : Z := 0x8004.
Definition MSG_WTF : Z := 0x8005.
Definition MSG_END_SZ : nat := 6.
Definition STATUS_OK : Z := 3.
Definition STATUS_NOK : Z := 7.

(** ** Command channel *)

(** The device as the command channel sees it: the bulk writes made so far
    (endpoint, data), latest first, and the replies it will give to the
    coming bulk reads. *)
Record usbdev : Type := mk_usbdev {
  written : list (Z * bytes);
  replies : list bytes
}.

Definition bulkWrite (dev : usbdev) (endpoint : Z) (data : bytes) : usbdev :=
  mk_usbdev ((endpoint, data) :: written dev) (replies dev).

(** A bulk read returns at most [len] bytes; with nothing to read the
    transport times out. *)
Definition bulkRead (dev : usbdev) (endpoint : Z) (len : nat)
  : result (usbdev * bytes) :=
  match replies dev with
  | [] => Raise USBError
  | r :: rs => Ok (mk_usbdev (written dev) rs, take len r)
  end.

(** [bulk1(dev, cmd, read)]: one write to endpoint 0x01, then, if [read],
    one 0x200-byte read from endpoint 0x83; [None] is returned otherwise. *)
Definition bulk1 (dev : usbdev) (cmd : bytes) (read : bool)
  : result (usbdev * option bytes) :=
  let dev1 := bulkWrite dev 0x01 cmd in
  if read
  then (do r <- bulkRead dev1 0x83 0x200; Ok (fst r, Some (snd r)))%result
  else Ok (dev1, None).

(** [cmd1(dev, opcode, payload, read)].  The source calls
    [struct.pack(">II", (opcode, len(payload)))]: the two header fields are
    passed as ONE argument, a tuple. *)
Definition cmd1 (dev : usbdev) (opcode : Z) (payload : bytes) (read : bool)
  : result (usbdev * option bytes) :=
  (do buff <- struct_pack BigEndian [fmt_I; fmt_I]
              [PyTuple [opcode; Z.of_nat (length payload)]];
   bulk1 dev (buff ++ payload) read)%result.

(** The frame the specification describes: opcode, then payload length,
    both big-endian 32-bit, then the payload. *)
Definition spec_cmd_frame (opcode : Z) (payload : bytes) : result bytes :=
  (do buff <- struct_pack BigEndian [fmt_I; fmt_I]
              [PyInt opcode; PyInt (Z.of_nat (length payload))];
   Ok (buff ++ payload))%result.

(** Parsing the 8-byte header of a command frame. *)
Definition parse_cmd_header (frame : bytes) : result (Z * Z) :=
  (do vs <- struct_unpack BigEndian [fmt_I; fmt_I] (take 8 frame);
   match vs with
   | [op; len] => Ok (op, len)
   | _ => Raise StructError
   end)%result.

(** ** Frame decoder *)

(** The part of PIL's [Image] the decoder uses: an image of mode "I" is
    [xsize] columns by [ysize] rows of integers, stored row by row. *)
Record image : Type := mk_image {
  xsize : nat;
  ysize : nat;
  pixels : list Z
}.

(** The colour "White" in mode "I". *)
Definition White : Z := 255.

(** [Image.new(mode, size, color)]: [size] is (width, height). *)
Definition Image_new (size : nat * nat) (color : Z) : image :=
  mk_image (fst size) (snd size) (replicate (fst size * snd size) color).

(** [img.putpixel((x, y), value)]: "image index out of range" outside of
    the image. *)
Definition putpixel (img : image) (xy : nat * nat) (value : Z) : result image :=
  let (x, y) := xy in
  if (x <? xsize img)%nat && (y <? ysize img)%nat
  then Ok (mk_image (xsize img) (ysize img)
             (<[(y * xsize img + x)%nat := value]> (pixels img)))
  else Raise IndexError.

Definition getpixel (img : image) (xy : nat * nat) : result Z :=
  let (x, y) := xy in
  if (x <? xsize img)%nat && (y <? ysize img)%nat
  then match pixels img !! (y * xsize img + x)%nat with
       | Some v => Ok v
       | None => Raise IndexError
       end
  else Raise IndexError.

(** [buff[i]] for [0 <= i]. *)
Definition index (buff : bytes) (i : nat) : result Z :=
  match buff !! i with
  | Some b => Ok (Z_of_byte b)
  | None => Raise IndexError
  end.

(** [for x in xs: a = body(x, a)], leaving at the first exception. *)
Fixpoint for_each {A B} (xs : list B) (body : B -> A -> result A) (a : A)
  : result A :=
  match xs with
  | [] => Ok a
  | x :: xs' => (do a' <- body x a; for_each xs' body a')%result
  end.

Definition range (n : nat) : list nat := seq 0 n.

(** The body of the inner loop of [decode]: pixel [x] of row [y]. *)
Definition decode_pixel (line0 : bytes) (y x : nat) (img : image) : result image :=
  (do b0 <- index line0 (2 * x + 0);
   do b1 <- index line0 (2 * x + 1);
   putpixel img (x, y) (Z.shiftl b1 8 + b0))%result.

(** The body of the outer loop of [decode]: row [y]. *)
Definition decode_row (buff : bytes) (width depth : nat) (y : nat) (img : image)
  : result image :=
  let line0 := slice buff (y * width * depth) ((y + 1) * width * depth) in
  for_each (range width) (decode_pixel line0 y) img.

(** [decode(buff, width, height, depth)]. *)
Definition decode (buff : bytes) (width height depth : nat) : result image :=
  if negb (length buff =? width * height * depth)%nat then Raise AssertionError
  else
    let img := Image_new (height, width) White in
    for_each (range height) (decode_row buff width depth) img.

(** ** Session facade *)

(** The fields of [Hamamatsu] the decoder needs; [width] and [height] are
    [None] until the device has been initialised. *)
Record Hamamatsu : Type := mk_Hamamatsu {
  ham_width : option nat;
  ham_height : option nat;
  ham_depth : nat
}.

(** [Hamamatsu.decode(self, buff)]: the body is the bare call
    [decode(buff, self.width, self.height)], so the method returns [None]
    when the call returns.  With [self.width] still [None] the product
    [width * height * depth] raises [TypeError]. *)
Definition Hamamatsu_decode (self : Hamamatsu) (buff : bytes)
  : result (option image) :=
  match ham_width self, ham_height self with
  | Some width, Some height =>
      (do _img <- decode buff width height 2; Ok None)%result
  | _, _ => Raise TypeError
  end.

(** ** Streaming capture engine: the [CapImgN] object *)

(** A frame completion: (counter, raw image, footer value). *)
Definition completion : Type := Z * bytes * Z.

(** The attributes of [CapImgN] that the engine reads or writes.
    [trans_l] holds one entry per allocated transfer: [true] while the
    transfer is submitted, that is, while its read is outstanding. *)
Record CapImgN : Type := mk_CapImgN {
  imgsz : nat;
  n : Z;
  state : Z;
  urb_remain : Z;
  rawbuff : option bytes;
  completions : list completion;
  urb_max : Z;
  packets : Z;
  running : bool;
  imgx_sz : nat;
  trans_l : list bool
}.

(** [CapImgN.__init__(dev, usbcontext, width, height, depth, n)]. *)
Definition CapImgN_init (width height depth : nat) (n : Z) : CapImgN :=
  {| imgsz := width * height * depth;
     n := n;
     state := MSG_END;
     urb_remain := 0;
     rawbuff := None;
     completions := [];
     urb_max := 31;
     packets := 0;
     running := true;
     imgx_sz := width * height * depth + 2;
     trans_l := [] |}.

Definition set_state (v : Z) (s : CapImgN) : CapImgN :=
  mk_CapImgN (imgsz s) (n s) v (urb_remain s) (rawbuff s) (completions s)
    (urb_max s) (packets s) (running s) (imgx_sz s) (trans_l s).
Definition set_urb_remain (v : Z) (s : CapImgN) : CapImgN :=
  mk_CapImgN (imgsz s) (n s) (state s) v (rawbuff s) (completions s)
    (urb_max s) (packets s) (running s) (imgx_sz s) (trans_l s).
Definition set_rawbuff (v : option bytes) (s : CapImgN) : CapImgN :=
  mk_CapImgN (imgsz s) (n s) (state s) (urb_remain s) v (completions s)
    (urb_max s) (packets s) (running s) (imgx_sz s) (trans_l s).
Definition set_completions (v : list completion) (s : CapImgN) : CapImgN :=
  mk_CapImgN (imgsz s) (n s) (state s) (urb_remain s) (rawbuff s) v
    (urb_max s) (packets s) (running s) (imgx_sz s) (trans_l s).
Definition set_packets (v : Z) (s : CapImgN) : CapImgN :=
  mk_CapImgN (imgsz s) (n s) (state s) (urb_remain s) (rawbuff s)
    (completions s) (urb_max s) v (running s) (imgx_sz s) (trans_l s).
Definition set_running (v : bool) (s : CapImgN) : CapImgN :=
  mk_CapImgN (imgsz s) (n s) (state s) (urb_remain s) (rawbuff s)
    (completions s) (urb_max s) (packets s) v (imgx_sz s) (trans_l s).
Definition set_trans_l (v : list bool) (s : CapImgN) : CapImgN :=
  mk_CapImgN (imgsz s) (n s) (state s) (urb_remain s) (rawbuff s)
    (completions s) (urb_max s) (packets s) (running s) (imgx_sz s) v.

(** Methods run on [self] and may raise after having changed it. *)
Definition M (A : Type) : Type := CapImgN -> CapImgN * result A.

Definition ret {A} (a : A) : M A := fun s => (s, Ok a).
Definition raise {A} (e : exn) : M A := fun s => (s, Raise e).
Definition bind {A B} (c : M A) (k : A -> M B) : M B :=
  fun s =>
    match c s with
    | (s', Ok a) => k a s'
    | (s', Raise e) => (s', Raise e)
    end.
Definition lift {A} (r : result A) : M A := fun s => (s, r).
Definition gets {A} (f : CapImgN -> A) : M A := fun s => (s, Ok (f s)).
Definition modify (f : CapImgN -> CapImgN) : M unit := fun s => (f s, Ok tt).
Definition assert (c : bool) : M unit :=
  if c then ret tt else raise AssertionError.
(** [try: c  except: h; raise]. *)
Definition try_except {A} (c : M A) (h : M unit) : M A :=
  fun s =>
    match c s with
    | (s', Ok a) => (s', Ok a)
    | (s', Raise e) => (fst (h s'), Raise e)
    end.

Declare Scope M_scope.
Delimit Scope M_scope with M.
Notation "'do' x <- c ; k" := (bind c (fun x => k))
  (at level 10, x name, c at level 100, k at level 200) : M_scope.
Notation "c ;; k" := (bind c (fun _ => k))
  (at level 100, k at level 200, right associativity) : M_scope.

(** [is_sync(buff)]: the leading word when it is a marker, else 0. *)
Definition is_sync (buff : bytes) : result Z :=
  if (length buff =? 0)%nat then Ok 0
  else
    (do pack2u <- unpack16_le (slice buff 0 2);
     if 0x4000 <=? pack2u then Ok pack2u else Ok 0)%result.

(** [CapImgN.process_end(endbuff)].  The hexdumps and prints are left out;
    the slices they take cannot raise. *)
Definition process_end (endbuff : bytes) : M unit :=
  (do orb <- gets rawbuff;
   match orb with
   | None => raise TypeError
   | Some rb =>
       do isz <- gets imgsz;
       do xsz <- gets imgx_sz;
       let buff := slice rb 0 xsz in
       modify (set_rawbuff (Some (drop xsz rb))) ;;
       let rawimg := slice buff 0 isz in
       let footer := drop isz buff in
       do average <- lift (unpack1 LittleEndian fmt_H footer);
       do opcode <- lift (unpack16_le (slice endbuff 0 2));
       let endbuff := slice endbuff 0 MSG_END_SZ in
       assert (opcode =? MSG_END) ;;
       do sc <- lift (struct_unpack LittleEndian [fmt_H; fmt_H] (drop 2 endbuff));
       match sc with
       | [status; counter] =>
           if status =? STATUS_NOK then ret tt
           else
             assert (status =? STATUS_OK) ;;
             assert (length rawimg =? isz)%nat ;;
             modify (fun s =>
               set_completions (completions s ++ [(counter, rawimg, average)]) s)
       | _ => raise StructError
       end
   end)%M.

(** [CapImgN.handle_buff(buff)]. *)
Definition handle_buff (buff : bytes) : M unit :=
  (do sync <- lift (is_sync buff);
   if sync =? MSG_WTF then
     modify (set_state MSG_END) ;;
     modify (set_rawbuff None)
   else
     do st <- gets state;
     if st =? MSG_END then
       if sync =? 0 then ret tt
       else if sync =? MSG_END then ret tt
       else
         assert (sync =? MSG_BEGIN) ;;
         modify (set_state MSG_BEGIN) ;;
         modify (set_rawbuff (Some [])) ;;
         modify (set_packets 0)
     else if st =? MSG_BEGIN then
       if negb (sync =? 0) then
         assert (sync =? MSG_END) ;;
         process_end buff ;;
         modify (set_rawbuff None) ;;
         modify (set_state MSG_END)
       else
         modify (fun s => set_packets (packets s + 1) s) ;;
         do orb <- gets rawbuff;
         match orb with
         | None => raise AttributeError
         | Some rb => modify (set_rawbuff (Some (rb ++ buff)))
         end
     else assert false)%M.

(** [trans.submit()] for the transfer at position [i] of [trans_l]. *)
Definition submit (i : nat) : M unit :=
  modify (fun s => set_trans_l (<[i := true]> (trans_l s)) s).

(** [CapImgN.async_cb(trans)], where [trans] is the transfer at position
    [i] and [buff] is [trans.getBuffer()]. *)
Definition async_cb (i : nat) (buff : bytes) : M unit :=
  try_except
    (do r <- gets running;
     (if r : bool then handle_buff buff else ret tt) ;;
     do r <- gets running;
     if r : bool then
       do st <- gets state;
       do ur <- gets urb_remain;
       if (st =? MSG_END) && (ur =? 1) then submit i
       else if st =? MSG_BEGIN then submit i
       else ret tt
     else modify (fun s => set_urb_remain (urb_remain s - 1) s))%M
    (modify (set_running false)).

(** One round of the loop of [alloc_urb]: a new transfer is submitted and
    appended to [trans_l]. *)
Definition alloc_one (s : CapImgN) : CapImgN :=
  set_urb_remain (urb_remain s + 1) (set_trans_l (trans_l s ++ [true]) s).

(** [CapImgN.alloc_urb(n)]: [range(n)] is empty for [n <= 0]. *)
Definition alloc_urb (k : Z) (s : CapImgN) : CapImgN :=
  Nat.iter (Z.to_nat k) alloc_one s.

(** What the transport does during one [handleEventsTimeout]: the reads
    that complete, in order, each with the position of its transfer in
    [trans_l] and the buffer read.  A transfer is not submitted any more
    when its callback runs; an exception raised by a callback leaves
    [handleEventsTimeout].  An entry for a transfer that is not submitted
    describes no completion and is passed over. *)
Fixpoint handleEventsTimeout (ds : list (nat * bytes)) : M unit :=
  match ds with
  | [] => ret tt
  | (i, buff) :: ds' =>
      (do tl <- gets trans_l;
       match tl !! i with
       | Some true =>
           modify (set_trans_l (<[i := false]> tl)) ;;
           async_cb i buff ;;
           handleEventsTimeout ds'
       | _ => handleEventsTimeout ds'
       end)%M
  end.

(** One turn of the loop of [run] as the environment decides it:
    [secs] is [int(time.time() - tstart)] at that turn, [deliveries] is what
    [handleEventsTimeout] delivers. *)
Record poll : Type := mk_poll {
  secs : Z;
  deliveries : list (nat * bytes)
}.

(** How the [while self.urb_remain] loop ends: the counter reached zero, an
    exception left the loop, or the environment's script ended with the
    loop still waiting. *)
Inductive loop_end : Type :=
| LoopDone
| LoopRaise (e : exn)
| LoopPending.

(** The allocation step of the loop body. *)
Definition refill (s : CapImgN) : CapImgN :=
  if running s && (state s =? MSG_BEGIN)
  then alloc_urb (urb_max s - urb_remain s) s
  else s.

Fixpoint run_loop (timeout_ms : Z) (tr : list poll) (s : CapImgN)
  : CapImgN * loop_end :=
  if urb_remain s =? 0 then (s, LoopDone)
  else
    match tr with
    | [] => (s, LoopPending)
    | p :: tr' =>
        let s1 :=
          set_running
            (running s && (Z.of_nat (length (completions s)) <? n s)) s in
        let elapsed := secs p * 1000 in
        if timeout_ms <=? elapsed then (s1, LoopRaise (TimeoutAfter elapsed))
        else
          match handleEventsTimeout (deliveries p) (refill s1) with
          | (s2, Ok _) => run_loop timeout_ms tr' s2
          | (s2, Raise e) => (s2, LoopRaise e)
          end
    end.

(** What a caller of [run] gets: the completions yielded, an exception, or,
    when the script ends first, nothing yet. *)
Inductive outcome : Type :=
| Returned (cs : list completion)
| Raised (e : exn)
| Pending.

(** [CapImgN.run(timeout_ms)], consumed to its end. *)
Definition run (timeout_ms : Z) (tr : list poll) (s : CapImgN)
  : CapImgN * outcome :=
  let s0 := alloc_urb 1 (set_urb_remain 0 (set_trans_l [] s)) in
  match run_loop timeout_ms tr s0 with
  | (s1, LoopDone) => (set_running false s1, Returned (completions s1))
  | (s1, LoopRaise e) => (set_running false s1, Raised e)
  | (s1, LoopPending) => (s1, Pending)
  end.

(** [cap_imgn(dev, usbcontext, width, height, depth, n, timeout_ms)]. *)
Definition cap_imgn (width height depth : nat) (n : Z) (timeout_ms : Z)
  (tr : list poll) : CapImgN * outcome :=
  let cap := CapImgN_init width height depth n in
  match run timeout_ms tr cap with
  | (cap', Pending) => (cap', Pending)
  | (cap', r) => (set_running false cap', r)
  end.

(** The number of reads outstanding: the submitted transfers. *)
Definition outstanding (s : CapImgN) : Z :=
  Z.of_nat (length (filter (fun t => t = true) (trans_l s))).

(** ** The statements of the specification that the code does not meet *)

(** The specification's reading of frame finalisation: what the
    accumulation buffer holds beyond image and footer is still in the
    accumulation buffer once the END buffer has been handled. *)
Definition leftover_retained (s : CapImgN) (endbuff : bytes) : Prop :=
  forall rb, rawbuff s = Some rb ->
    rawbuff (fst (handle_buff endbuff s)) = Some (drop (imgsz s + 2) rb).

(** The END buffer with a given status and counter. *)
Definition end_buffer (status counter : Z) (pad : bytes) : bytes :=
  le_bytes 2 MSG_END ++ le_bytes 2 status ++ le_bytes 2 counter ++ pad.

(** The specification's reading of the END status, for an END buffer
    handled by an object [s]: OK appends a completion, NOK appends nothing
    and raises nothing, any other status raises and appends nothing. *)
Definition end_status_handled (s : CapImgN) (status counter : Z) (pad : bytes)
  : Prop :=
  let r := handle_buff (end_buffer status counter pad) s in
  (status = STATUS_OK ->
   snd r = Ok tt /\
   exists rawimg footer,
     completions (fst r) = completions s ++ [(counter, rawimg, footer)]) /\
  (status = STATUS_NOK ->
   snd r = Ok tt /\ completions (fst r) = completions s) /\
  (status <> STATUS_OK -> status <> STATUS_NOK ->
   (exists e, snd r = Raise e) /\ completions (fst r) = completions s).

(** A session that has just handled a BEGIN buffer. *)
Definition in_frame_empty : CapImgN :=
  fst (handle_buff [x02; x80] (CapImgN_init 1 1 2 1)).

(** A session in a frame of a one-pixel image, with two bytes accumulated
    beyond image and footer. *)
Definition in_frame_leftover : CapImgN :=
  fst (handle_buff [x00; x00; x05; x00; x09; x09] in_frame_empty).

(** The reads the object counts that are not outstanding any more. *)
Definition lost (s : CapImgN) : Z := urb_remain s - outstanding s.

(** What holds of the transfer pool between two callbacks. *)
Definition pool_ok (s : CapImgN) : Prop :=
  0 <= outstanding s <= urb_remain s /\
  urb_remain s <= urb_max s /\
  (state s = MSG_END -> outstanding s <= 1 \/ outstanding s < urb_remain s).

(** What the state machine leaves alone. *)
Definition same_pool (s s' : CapImgN) : Prop :=
  trans_l s' = trans_l s /\ urb_remain s' = urb_remain s /\
  urb_max s' = urb_max s /\ running s' = running s /\ n s' = n s.

(** A method keeps a relation [R] when [R] holds between the object before
    the call and the object after it, raised or not. *)
Definition keeps (R : CapImgN -> CapImgN -> Prop) {A} (c : M A) : Prop :=
  forall s, R s (fst (c s)).

(** An image of a given size. *)
Definition has_size (X Y : nat) (img : image) : Prop :=
  xsize img = X /\ ysize img = Y.

(** The sample that the specification places at column [x] of row [y]: the
    little-endian 16-bit value at byte offset [2 * (y * width + x)]. *)
Definition sample (buff : bytes) (width x y : nat) : Z :=
  le_value (slice buff (2 * (y * width + x)) (2 * (y * width + x) + 2)).

(** The image holds the samples of the rows above [y0] and of the columns
    of row [y0] before [x0]. *)
Definition decoded_upto (buff : bytes) (k y0 x0 : nat) (img : image) : Prop :=
  has_size k k img /\
  length (pixels img) = (k * k)%nat /\
  forall x y, (x < k)%nat -> (y < y0 \/ (y = y0 /\ x < x0))%nat ->
    pixels img !! (y * k + x)%nat = Some (sample buff k x y).

(** The state in which [run] enters its loop: one transfer, submitted. *)
Definition run_start (s : CapImgN) : CapImgN :=
  alloc_urb 1 (set_urb_remain 0 (set_trans_l [] s)).

(** The specification's reading of the pipelining policy, for a state of
    the session: at most 31 reads outstanding in a frame, at most 1 while
    waiting for BEGIN. *)
Definition reads_throttled (s : CapImgN) : Prop :=
  (state s = MSG_BEGIN -> outstanding s <= 31) /\
  (state s = MSG_END -> outstanding s <= 1).

(** The specification's reading of the timeout: when the call fails with a
    timeout, no read is counted or outstanding any more. *)
Definition timeout_after_drain (width height depth : nat) (n timeout_ms : Z)
    (tr : list poll) : Prop :=
  forall s e,
    cap_imgn width height depth n timeout_ms tr = (s, Raised (TimeoutAfter e)) ->
    urb_remain s = 0 /\ outstanding s = 0.

(** A capture of one frame of a one-pixel image as the transport can play
    it: the first read returns the BEGIN buffer; the loop then fills the
    pipeline to 31 reads; the read of transfer 0 returns the two bytes of
    the image and the two of the footer, that of transfer 1 the END buffer
    with status OK and counter 7; within the next second the 29 other
    reads and the read of transfer 0 time out with nothing read; the loop
    then turns idle until three seconds have passed. *)
Definition script_one_frame : list poll :=
  [ mk_poll 0 [(0%nat, [x02; x80])];
    mk_poll 0 [(0%nat, [x00; x00; x00; x00]);
               (1%nat, end_buffer STATUS_OK 7 [])];
    mk_poll 1 (map (fun i => (i, [])) (0%nat :: seq 2 29));
    mk_poll 3 [] ].

(** A whole frame of a one-pixel image delivered to the one read of the
    session during a single [handleEventsTimeout], with the given status
    and counter 7; the next turn delivers the completion of that read. *)
Definition script_single_read (status : Z) : list poll :=
  [ mk_poll 0 [(0%nat, [x02; x80]);
               (0%nat, [x00; x00; x00; x00]);
               (0%nat, end_buffer status 7 [])];
    mk_poll 0 [(0%nat, [])] ].

(** ** Statements about the state machine as a whole *)

(** [handle_buff] called on each buffer of a list in turn, as the callbacks
    of a running session call it; the first exception ends the sequence. *)
Fixpoint handle_buffs (buffs : list bytes) : M unit :=
  match buffs with
  | [] => ret tt
  | buff :: buffs' => (handle_buff buff ;; handle_buffs buffs')%M
  end.

(** The state of the machine and the accumulation buffer go together:
    no buffer while waiting for BEGIN, a buffer while in a frame. *)
Definition sm_ok (s : CapImgN) : Prop :=
  (state s = MSG_END /\ rawbuff s = None) \/
  (state s = MSG_BEGIN /\ exists rb, rawbuff s = Some rb).

(** A completion of a session whose images have [isz] bytes. *)
Definition completion_ok (isz : nat) (c : completion) : Prop :=
  0 <= fst (fst c) < 65536 /\
  length (snd (fst c)) = isz /\
  0 <= snd c < 65536.

(** The fields the state machine works on are the same in two objects. *)
Definition same_machine (s s' : CapImgN) : Prop :=
  state s' = state s /\ rawbuff s' = rawbuff s /\
  completions s' = completions s /\ packets s' = packets s /\
  imgsz s' = imgsz s /\ imgx_sz s' = imgx_sz s.

(** The completions of [s] are the first completions of [s']. *)
Definition completions_grow (s s' : CapImgN) : Prop :=
  exists cs, completions s' = completions s ++ cs.

(** A method raises only exceptions of a given kind. *)
Definition raises_only (Q : exn -> Prop) {A} (c : M A) : Prop :=
  forall s e, snd (c s) = Raise e -> Q e.

(** The exceptions of the state machine. *)
Definition machine_exn (e : exn) : Prop :=
  e = StructError \/ e = AssertionError \/ e = TypeError \/ e = AttributeError.

(** What the loop of [run] keeps about the target count: the session runs
    or has its [n] completions, and a read is counted or it has them. *)
Definition target_ok (s : CapImgN) : Prop :=
  (running s = true \/ n s <= Z.of_nat (length (completions s))) /\
  (1 <= urb_remain s \/ n s <= Z.of_nat (length (completions s))).

(** ** Sync words inside a buffer *)

(** The loop of [check_sync(buff)], with the count [n] so far: while the
    buffer is not empty, its first two bytes are unpacked as a
    little-endian word, the word is counted when it is 0x4000 or more, and
    the loop goes on with [buff[2:]].  The prints are left out. *)
Fixpoint check_sync_loop (buff : bytes) (n : Z) : result Z :=
  match buff with
  | [] => Ok n
  | _ :: tl =>
      (do pack2u <- unpack16_le (slice buff 0 2);
       let n' := if 0x4000 <=? pack2u then n + 1 else n in
       match tl with
       | [] => Ok n'
       | _ :: rest => check_sync_loop rest n'
       end)%result
  end.

(** [check_sync(buff)]. *)
Definition check_sync (buff : bytes) : result Z := check_sync_loop buff 0.

(** ** Device information *)

(** [validate_read(expected, actual, msg)], on byte strings. *)
Definition validate_read (expected actual : bytes) : result unit :=
  if List.list_eq_dec Byte.byte_eq_dec expected actual
  then Ok tt
  else Raise ValidateFailed.

(** [parse_info2(buff)]. *)
Definition parse_info2 (buff : bytes) : result (Z * Z) :=
  (do _ <- validate_read [x00; x00; x00; x14; x00; x00] (slice buff 0 6);
   do width <- unpack16ub (slice buff 6 8);
   do _ <- validate_read [x00; x00] (slice buff 8 10);
   do height <- unpack16ub (slice buff 10 12);
   do _ <- validate_read [x00; x00; x00; x10; x00; x00; x00; x01] (drop 12 buff);
   if ((width =? 1032) && (height =? 1032)) || ((width =? 2368) && (height =? 2340))
   then Ok (width, height)
   else Raise AssertionError)%result.

(** The replies to the resolution query that the comment of [get_info2]
    quotes, for the DC5 and for the DC12. *)
Definition info2_dc5 : bytes :=
  [x00; x00; x00; x14; x00; x00; x04; x08; x00; x00;
   x04; x08; x00; x00; x00; x10; x00; x00; x00; x01].
Definition info2_dc12 : bytes :=
  [x00; x00; x00; x14; x00; x00; x09; x40; x00; x00;
   x09; x24; x00; x00; x00; x10; x00; x00; x00; x01].

(** Modelled from the spec: the helper [tostr] of faxitron/util.py, which
    is not among the sources.  The identity record holds ASCII text, so a
    string is taken as the list of its characters, each one a byte, and
    [tostr] as the identity. *)
Definition tostr (buff : bytes) : bytes := buff.

(** [s.replace('\x00', '')]. *)
Definition remove_nul (s : bytes) : bytes :=
  List.filter (fun c => negb (Byte.eqb c x00)) s.

(** [parse_info1(buff)]: vendor, model, version, serial number. *)
Definition parse_info1 (buff : bytes) : result (bytes * bytes * bytes * bytes) :=
  if negb (length buff =? 0x80)%nat then Raise AssertionError
  else
    let buff := tostr buff in
    if negb (length buff =? 0x80)%nat then Raise AssertionError
    else
      let vendor := remove_nul (slice buff 0x00 0x20) in
      let model := remove_nul (slice buff 0x20 0x40) in
      let ver := remove_nul (slice buff 0x40 0x60) in
      let sn := remove_nul (slice buff 0x60 0x80) in
      Ok (vendor, model, ver, sn).

(** A field of the identity record: the text, padded with NUL to 32
    bytes. *)
Definition info_field (text : bytes) : bytes :=
  text ++ replicate (32 - length text) x00.

(** ** Opening the device *)

Definition HAM_VID : Z := 0x0661.
Definition DC5_PID : Z := 0xA802.
Definition DC12_PID : Z := 0xA800.

(** A device of the list of the USB context. *)
Record udev : Type := mk_udev {
  getVendorID : Z;
  getProductID : Z;
  getBusNumber : Z;
  getDeviceAddress : Z
}.

(** [open_dev(usbcontext)] on the device list of the context: the first
    device with the vendor id of Hamamatsu and the product id of a DC5 or a
    DC12 is opened; [None] stands for the exception "Failed to find a
    device". *)
Fixpoint open_dev (devices : list udev) : option udev :=
  match devices with
  | [] => None
  | d :: devices' =>
      let vid := getVendorID d in
      let pid := getProductID d in
      if ((vid =? HAM_VID) && (pid =? DC5_PID))
         || ((vid =? HAM_VID) && (pid =? DC12_PID))
      then Some d
      else open_dev devices'
  end.

(** ** Exposure *)

(** [pack32(n)] of [set_exp_setup]. *)
Definition pack32 (n : Z) : result bytes :=
  struct_pack BigEndian [fmt_I] [PyInt n].





(** A device that [open_dev] takes: a Hamamatsu DC5 or DC12. *)
Definition supported (d : udev) : Prop :=
  getVendorID d = HAM_VID /\
  (getProductID d = DC5_PID \/ getProductID d = DC12_PID).

(** A text without NUL that fits in a field of the identity record. *)
Definition field_text (text : bytes) : Prop :=
  Forall (fun c => c <> x00) text /\ (length text <= 32)%nat.

(** * ham_process.py: bad-pixel replacement *)

(** The exceptions of the post-processing: those of the driver, and the
    [StatisticsError] of [statistics.median]. *)
Inductive pexn : Type :=
| Driver (e : exn)
| StatisticsError.

Inductive presult (A : Type) : Type :=
| POk (a : A)
| PRaise (e : pexn).
Arguments POk {A} a.
Arguments PRaise {A} e.

Definition plift {A} (r : result A) : presult A :=
  match r with
  | Ok a => POk a
  | Raise e => PRaise (Driver e)
  end.

Definition pbind {A B} (r : presult A) (k : A -> presult B) : presult B :=
  match r with
  | POk a => k a
  | PRaise e => PRaise e
  end.

Declare Scope presult_scope.
Delimit Scope presult_scope with presult.
Notation "'do' x <- c ; k" := (pbind c (fun x => k))
  (at level 10, x name, c at level 100, k at level 200) : presult_scope.

(** What [statistics.median] returns on integers: one of them, or the
    float [(a + b) / 2] of the two middle ones, kept as the sum [a + b]
    (the float is exact for the 32-bit values of an image of mode "I"). *)
Inductive pynum : Type :=
| PyZ (z : Z)
| PyFloatHalf (sum : Z).

(** [statistics.median(data)]. *)
Definition median (data : list Z) : presult pynum :=
  let data := merge_sort Z.le data in
  let n := length data in
  if (n =? 0)%nat then PRaise StatisticsError
  else if (n mod 2 =? 1)%nat then
    match data !! (n / 2)%nat with
    | Some v => POk (PyZ v)
    | None => PRaise (Driver IndexError)
    end
  else
    let i := (n / 2)%nat in
    match data !! (i - 1)%nat, data !! i with
    | Some a, Some b => POk (PyFloatHalf (a + b))
    | _, _ => PRaise (Driver IndexError)
    end.

(** An image whose pixel store has the size of the image. *)
Definition image_wf (im : image) : Prop :=
  length (pixels im) = (xsize im * ysize im)%nat.

Section BadPixels.

(** The constants [width] and [height] of faxitron/util.py, which is not
    among the sources. *)
Variables width height : nat.

(** What [putpixel] stores in an image of mode "I" for a float colour
    [sum / 2]: this depends on the version of PIL (a truncation, or a
    [TypeError]). *)
Variable float_ink : Z -> presult Z.

(** The body of the inner loop of [make_bpm]. *)
Definition make_bpm_pixel (im : image) (y x : nat) (ret : gset (nat * nat))
  : result (gset (nat * nat)) :=
  (do p <- getpixel im (x, y);
   if p =? 0 then Ok ret else Ok ({[ (x, y) ]} ∪ ret))%result.

(** [make_bpm(im)]: the positions of the pixels of [im] that are not 0. *)
Definition make_bpm (im : image) : result (gset (nat * nat)) :=
  for_each (range height)
    (fun y ret => for_each (range width) (make_bpm_pixel im y) ret) ∅.

(** The body of the inner loop of [im_med3], for the column [xp]. *)
Definition im_med3_pixel (im : image) (xp y : Z) (dy : Z) (pixs : list Z)
  : result (list Z) :=
  let yp := y + dy in
  if (yp <? 0) || (Z.of_nat height <=? yp) then Ok pixs
  else
    (do p <- getpixel im (Z.to_nat xp, Z.to_nat yp);
     Ok (pixs ++ [p]))%result.

(** The body of the outer loop of [im_med3]. *)
Definition im_med3_column (im : image) (x y : Z) (dx : Z) (pixs : list Z)
  : result (list Z) :=
  let xp := x + dx in
  if (xp <? 0) || (Z.of_nat width <=? xp) then Ok pixs
  else for_each [-1; 0; 1] (im_med3_pixel im xp y) pixs.

(** [im_med3(im, x, y)]: the median of the pixels around (x, y) that lie
    inside [width] by [height]. *)
Definition im_med3 (im : image) (x y : Z) : presult pynum :=
  (do pixs <- plift (for_each [-1; 0; 1] (im_med3_column im x y) []);
   median pixs)%presult.

(** [ret.putpixel((x, y), v)] for a value that [statistics.median]
    returned. *)
Definition putpixel_num (ret : image) (xy : nat * nat) (v : pynum)
  : presult image :=
  match v with
  | PyZ z => plift (putpixel ret xy z)
  | PyFloatHalf sum =>
      (do z <- float_ink sum; plift (putpixel ret xy z))%presult
  end.

(** The loop of [do_bpr] over the bad pixels in the order in which the set
    gives them. *)
Fixpoint do_bpr_over (order : list (nat * nat)) (im ret : image)
  : presult image :=
  match order with
  | [] => POk ret
  | (x, y) :: order' =>
      (do v <- im_med3 im (Z.of_nat x) (Z.of_nat y);
       do ret' <- putpixel_num ret (x, y) v;
       do_bpr_over order' im ret')%presult
  end.

(** [do_bpr(im, badimg)]; the copy of [im] is [im] itself. *)
Definition do_bpr (im badimg : image) : presult image :=
  (do bad_pixels <- plift (make_bpm badimg);
   do_bpr_over (elements bad_pixels) im im)%presult.

(** The pixels around (x, y), as [im_med3] collects them. *)
Definition window (im : image) (x y : nat) : list (result Z) :=
  [ getpixel im (x - 1, y - 1)%nat; getpixel im (x - 1, y)%nat;
    getpixel im (x - 1, y + 1)%nat;
    getpixel im (x, y - 1)%nat; getpixel im (x, y); getpixel im (x, y + 1)%nat;
    getpixel im (x + 1, y - 1)%nat; getpixel im (x + 1, y)%nat;
    getpixel im (x + 1, y + 1)%nat ].

End BadPixels.

(** [m] is a median of nine values: one of them, with at least five of them
    at most [m] and at least five at least [m]. *)
Definition is_median9 (m : Z) (vs : list Z) : Prop :=
  In m vs /\
  (5 <= length (List.filter (fun v => (v <=? m)%Z) vs))%nat /\
  (5 <= length (List.filter (fun v => (m <=? v)%Z) vs))%nat.

(** The bad pixels found in the rows above [y0] and in the columns of row
    [y0] before [x0]. *)
Definition bpm_found (width : nat) (im : image) (y0 x0 : nat)
    (ret : gset (nat * nat)) : Prop :=
  forall x y,
    (x, y) ∈ ret <->
    (y < y0 \/ (y = y0 /\ x < x0))%nat /\ (x < width)%nat /\
    exists p, getpixel im (x, y) = Ok p /\ p <> 0.

(** The value that [do_bpr] puts at a bad pixel: the median around it in
    the image [im], as an integer colour. *)
Definition bpr_value (width height : nat) (float_ink : Z -> presult Z)
    (im : image) (xy : nat * nat) : presult Z :=
  (do v <- im_med3 width height im (Z.of_nat (fst xy)) (Z.of_nat (snd xy));
   match v with
   | PyZ z => POk z
   | PyFloatHalf sum => float_ink sum
   end)%presult.

(** The pixel of [badimg] at (x, y) marks a bad pixel. *)
Definition marked_bad (width height : nat) (badimg : image) (x y : nat) : Prop :=
  (x < width)%nat /\ (y < height)%nat /\
  exists p, getpixel badimg (x, y) = Ok p /\ p <> 0.



(** An image of 3 by 3, a calibration image that marks its centre, and one
    that marks its centre and a corner. *)
Definition bpr_example_im : image := mk_image 3 3 [9; 1; 8; 2; 7; 3; 4; 6; 5].
Definition bpr_example_bad : image := mk_image 3 3 [0; 0; 0; 0; 1; 0; 0; 0; 0].
Definition bpr_example_corner : image := mk_image 3 3 [1; 0; 0; 0; 1; 0; 0; 0; 0].

(** A [putpixel] that stores the float colour [sum / 2] as [int] makes it
    an integer, rounding towards zero. *)
Definition ink_truncates (sum : Z) : presult Z := POk (Z.quot sum 2).

(** * Properties *)

(** ** Bytes and integers *)

Lemma Z_of_byte_range (b : byte) : 0 <= Z_of_byte b < 256.
Proof.
  unfold Z_of_byte. pose proof (Byte.to_N_bounded b). lia.
Qed.

Lemma byte_of_Z_of_byte (b : byte) : byte_of_Z (Z_of_byte b) = b.
Proof.
  unfold byte_of_Z. pose proof (Z_of_byte_range b) as Hr.
  rewrite Z.mod_small by lia. unfold Z_of_byte.
  rewrite N2Z.id, Byte.of_to_N. reflexivity.
Qed.

Lemma Z_of_byte_of_Z (z : Z) : Z_of_byte (byte_of_Z z) = z mod 256.
Proof.
  unfold byte_of_Z, Z_of_byte.
  pose proof (Z.mod_pos_bound z 256 ltac:(lia)) as Hr.
  destruct (Byte.of_N (Z.to_N (z mod 256))) as [b|] eqn:E.
  - apply Byte.to_of_N in E. rewrite E. lia.
  - apply Byte.of_N_None_iff in E. lia.
Qed.

Lemma length_le_bytes (k : nat) (z : Z) : length (le_bytes k z) = k.
Proof.
  revert z. induction k as [|k IH]; intros z; simpl; [reflexivity|].
  now rewrite IH.
Qed.

Lemma le_value_le_bytes (k : nat) (z : Z) :
  le_value (le_bytes k z) = z mod 256 ^ Z.of_nat k.
Proof.
  revert z. induction k as [|k IH]; intros z.
  - simpl. now rewrite Z.mod_1_r.
  - cbn [le_bytes le_value]. rewrite IH, Z_of_byte_of_Z.
    rewrite Nat2Z.inj_succ, Z.pow_succ_r by lia.
    rewrite (Z.rem_mul_r z 256 (256 ^ Z.of_nat k)); lia.
Qed.

Lemma int_value_int_bytes (o : byteorder) (k : nat) (z : Z) :
  0 <= z < 256 ^ Z.of_nat k ->
  int_value o (int_bytes o k z) = z.
Proof.
  intros Hz. destruct o; simpl.
  - rewrite rev_involutive, le_value_le_bytes. now apply Z.mod_small.
  - rewrite le_value_le_bytes. now apply Z.mod_small.
Qed.

Lemma length_int_bytes (o : byteorder) (k : nat) (z : Z) :
  length (int_bytes o k z) = k.
Proof.
  destruct o; simpl; [rewrite length_rev|]; apply length_le_bytes.
Qed.

(** ** Command channel *)

(** Packed with its two fields as two arguments, the header is parsed back
    to the opcode and the payload length, and the payload follows it. *)
Lemma spec_cmd_frame_roundtrip (opcode : Z) (payload : bytes) :
  0 <= opcode < 2 ^ 32 ->
  Z.of_nat (length payload) < 2 ^ 32 ->
  exists frame,
    spec_cmd_frame opcode payload = Ok frame /\
    parse_cmd_header frame = Ok (opcode, Z.of_nat (length payload)) /\
    drop 8 frame = payload.
Proof.
  intros Hop Hlen.
  unfold spec_cmd_frame, struct_pack. cbn [length Nat.eqb pack_items pack_item fmt_size].
  change (256 ^ Z.of_nat 4) with (2 ^ 32).
  assert (E1 : (0 <=? opcode) && (opcode <? 2 ^ 32) = true) by
    (apply andb_true_intro; split; [apply Z.leb_le|apply Z.ltb_lt]; lia).
  assert (E2 : (0 <=? Z.of_nat (length payload))
               && (Z.of_nat (length payload) <? 2 ^ 32) = true) by
    (apply andb_true_intro; split; [apply Z.leb_le|apply Z.ltb_lt]; lia).
  rewrite E1, E2. cbn [rbind].
  eexists; split; [reflexivity|].
  set (h1 := int_bytes BigEndian 4 opcode).
  set (h2 := int_bytes BigEndian 4 (Z.of_nat (length payload))).
  assert (L1 : length h1 = 4%nat) by apply length_int_bytes.
  assert (L2 : length h2 = 4%nat) by apply length_int_bytes.
  rewrite app_nil_r, <- app_assoc.
  split.
  - unfold parse_cmd_header, struct_unpack.
    assert (T : take 8 (h1 ++ h2 ++ payload) = h1 ++ h2).
    { rewrite app_assoc. apply take_app_length'. rewrite length_app. lia. }
    rewrite T, length_app, L1, L2. cbn [calcsize foldr fmt_size Nat.add Nat.eqb rbind unpack_items].
    rewrite (take_app_length' h1 h2 4 L1), (drop_app_length' h1 h2 4 L1).
    rewrite (firstn_all2 h2) by (rewrite L2; lia).
    unfold h1, h2.
    rewrite !int_value_int_bytes by (change (256 ^ Z.of_nat 4) with (2 ^ 32); lia).
    reflexivity.
  - rewrite app_assoc. apply drop_app_length'. rewrite length_app. lia.
Qed.

(** C1 (the code at its inputs): [cmd1] hands [struct.pack] one tuple for
    the two-field format ">II", so for every opcode and payload the call
    raises [struct.error] before anything is written: no frame is encoded. *)
Theorem cmd1_raises_struct_error (dev : usbdev) (opcode : Z) (payload : bytes)
    (read : bool) :
  cmd1 dev opcode payload read = Raise StructError.
Proof.
  unfold cmd1, struct_pack. reflexivity.
Qed.

(** ** The frame-synchronisation state machine *)

Lemma unpack16_le_inv (bs : bytes) (w : Z) :
  unpack16_le bs = Ok w -> length bs = 2%nat /\ w = le_value bs.
Proof.
  unfold unpack16_le, unpack1, struct_unpack. cbn [calcsize foldr fmt_size Nat.add].
  destruct (Nat.eqb_spec (length bs) 2) as [E|E]; [|discriminate].
  cbn [rbind unpack_items int_value fmt_size].
  rewrite firstn_all2 by lia. intros [= <-]. now split.
Qed.

Lemma length_slice_0 {A} (l : list A) (k : nat) :
  length (slice l 0 k) = Nat.min k (length l).
Proof. unfold slice. rewrite drop_0, Nat.sub_0_r. apply length_take. Qed.

(** [is_sync] on a buffer with a two-byte leading word. *)
Lemma is_sync_leading_word (buff : bytes) (w : Z) :
  unpack16_le (slice buff 0 2) = Ok w ->
  is_sync buff = Ok (if 0x4000 <=? w then w else 0).
Proof.
  intros H. unfold is_sync. rewrite H.
  apply unpack16_le_inv in H as [HL _]. rewrite length_slice_0 in HL.
  destruct (Nat.eqb_spec (length buff) 0) as [E|E]; [lia|].
  cbn [rbind]. now destruct (0x4000 <=? w).
Qed.

Lemma unpack16_le_le_bytes (z : Z) (rest : bytes) :
  0 <= z < 65536 ->
  unpack16_le (slice (le_bytes 2 z ++ rest) 0 2) = Ok z.
Proof.
  intros Hz. unfold slice. rewrite drop_0.
  change (2 - 0)%nat with 2%nat.
  rewrite (take_app_length' _ rest 2 (eq_sym (length_le_bytes 2 z))).
  unfold unpack16_le, unpack1, struct_unpack. rewrite length_le_bytes.
  cbn [calcsize foldr fmt_size Nat.add Nat.eqb rbind unpack_items int_value].
  rewrite firstn_all2 by (rewrite length_le_bytes; lia).
  rewrite le_value_le_bytes. f_equal. apply Z.mod_small.
  change (256 ^ Z.of_nat 2) with 65536. lia.
Qed.

(** A WTF buffer, in any state of the object. *)
Lemma handle_buff_wtf_eq (s : CapImgN) (buff : bytes) :
  unpack16_le (slice buff 0 2) = Ok MSG_WTF ->
  handle_buff buff s = (set_rawbuff None (set_state MSG_END s), Ok tt).
Proof.
  intros H. unfold handle_buff, bind, lift.
  rewrite (is_sync_leading_word _ _ H). reflexivity.
Qed.

(** A marker other than BEGIN, END and WTF while waiting for BEGIN. *)
Lemma handle_buff_waiting_other_marker (s : CapImgN) (buff : bytes) (w : Z) :
  state s = MSG_END ->
  unpack16_le (slice buff 0 2) = Ok w ->
  0x4000 <= w -> w <> MSG_BEGIN -> w <> MSG_END -> w <> MSG_WTF ->
  handle_buff buff s = (s, Raise AssertionError).
Proof.
  intros Hst H Hm HB HE HW. unfold handle_buff, bind, lift, gets.
  rewrite (is_sync_leading_word _ _ H).
  destruct (Z.leb_spec 0x4000 w) as [_|]; [|lia].
  destruct (Z.eqb_spec w MSG_WTF) as [|_]; [contradiction|].
  rewrite Hst. change (MSG_END =? MSG_END) with true. cbn iota.
  destruct (Z.eqb_spec w 0) as [->|_]; [lia|].
  destruct (Z.eqb_spec w MSG_END) as [|_]; [contradiction|].
  destruct (Z.eqb_spec w MSG_BEGIN) as [|_]; [contradiction|].
  reflexivity.
Qed.

(** C7: a buffer whose leading little-endian word is the WTF marker, handled
    in any state, drops the accumulation buffer, puts the state machine back
    to waiting for BEGIN, leaves the completion list as it is and raises
    nothing, in [handle_buff] and in the callback that calls it. *)
Theorem handle_buff_wtf_resets (s : CapImgN) (buff : bytes) (i : nat) :
  unpack16_le (slice buff 0 2) = Ok MSG_WTF ->
  let s' := fst (handle_buff buff s) in
  snd (handle_buff buff s) = Ok tt /\
  state s' = MSG_END /\
  rawbuff s' = None /\
  completions s' = completions s /\
  snd (async_cb i buff s) = Ok tt.
Proof.
  intros H. cbn zeta. rewrite (handle_buff_wtf_eq s buff H).
  repeat split.
  unfold async_cb, try_except, bind, gets.
  destruct (running s) eqn:R.
  - rewrite (handle_buff_wtf_eq s buff H). cbn -[Z.eqb]. rewrite R.
    cbn -[Z.eqb]. change (MSG_END =? MSG_END) with true. cbn -[Z.eqb].
    destruct (urb_remain s =? 1); reflexivity.
  - cbn. rewrite R. reflexivity.
Qed.

Lemma handle_buff_wtf_resets_witness :
  let s := set_rawbuff (Some [x01; x02]) (set_state MSG_BEGIN (CapImgN_init 1 1 2 1)) in
  let s' := fst (handle_buff [x05; x80; x00] s) in
  snd (handle_buff [x05; x80; x00] s) = Ok tt /\
  state s' = MSG_END /\
  rawbuff s' = None /\
  completions s' = completions s /\
  snd (async_cb 0 [x05; x80; x00] s) = Ok tt.
Proof.
  apply (handle_buff_wtf_resets
           (set_rawbuff (Some [x01; x02]) (set_state MSG_BEGIN (CapImgN_init 1 1 2 1)))
           [x05; x80; x00] 0%nat).
  reflexivity.
Defined.

(** C9: while waiting for BEGIN, a buffer whose leading word is a marker
    (at least 0x4000) other than BEGIN, END and WTF, such as ABORTED, fails
    the assertion of [handle_buff]; the object is left as it was, and the
    callback stops the session ([running] becomes false) and raises the
    assertion error again. *)
Theorem handle_buff_waiting_marker_fatal (s : CapImgN) (buff : bytes) (w : Z)
    (i : nat) :
  state s = MSG_END ->
  unpack16_le (slice buff 0 2) = Ok w ->
  0x4000 <= w -> w <> MSG_BEGIN -> w <> MSG_END -> w <> MSG_WTF ->
  handle_buff buff s = (s, Raise AssertionError) /\
  (running s = true ->
   async_cb i buff s = (set_running false s, Raise AssertionError)).
Proof.
  intros Hst H Hm HB HE HW.
  pose proof (handle_buff_waiting_other_marker s buff w Hst H Hm HB HE HW) as E.
  split; [exact E|]. intros R.
  unfold async_cb, try_except, bind, gets. rewrite R, E. reflexivity.
Qed.

Lemma handle_buff_waiting_marker_fatal_witness :
  let s := CapImgN_init 1032 1032 2 1 in
  handle_buff [x01; x80] s = (s, Raise AssertionError) /\
  async_cb 0 [x01; x80] s = (set_running false s, Raise AssertionError).
Proof.
  cbn zeta.
  destruct (handle_buff_waiting_marker_fatal (CapImgN_init 1032 1032 2 1)
              [x01; x80] MSG_ABORTED 0%nat) as [H1 H2];
    [reflexivity | reflexivity | unfold MSG_ABORTED; lia | discriminate
    | discriminate | discriminate |].
  split; [exact H1 | apply H2; reflexivity].
Defined.

(** ** Frame finalisation *)

(** An END buffer: the marker, the status, the counter, then padding. *)
Lemma end_buffer_fields (status counter : Z) (pad : bytes) :
  0 <= status < 65536 -> 0 <= counter < 65536 ->
  let endbuff :=
    le_bytes 2 MSG_END ++ le_bytes 2 status ++ le_bytes 2 counter ++ pad in
  unpack16_le (slice endbuff 0 2) = Ok MSG_END /\
  struct_unpack LittleEndian [fmt_H; fmt_H]
    (drop 2 (slice endbuff 0 MSG_END_SZ)) = Ok [status; counter].
Proof.
  intros Hs Hc endbuff. split.
  - apply unpack16_le_le_bytes. unfold MSG_END. lia.
  - assert (E : drop 2 (slice endbuff 0 MSG_END_SZ)
                = le_bytes 2 status ++ le_bytes 2 counter).
    { unfold slice, endbuff, MSG_END_SZ. rewrite drop_0.
      change (6 - 0)%nat with 6%nat.
      rewrite !app_assoc.
      rewrite (take_app_length' _ pad 6)
        by (rewrite !length_app, !length_le_bytes; reflexivity).
      rewrite <- app_assoc.
      apply drop_app_length'. now rewrite length_le_bytes. }
    rewrite E. unfold struct_unpack.
    rewrite length_app, !length_le_bytes.
    cbn [calcsize foldr fmt_size Nat.add Nat.eqb unpack_items int_value].
    rewrite (take_app_length' _ _ 2 (eq_sym (length_le_bytes 2 status))).
    rewrite (drop_app_length' _ _ 2 (eq_sym (length_le_bytes 2 status))).
    rewrite firstn_all2 by (rewrite length_le_bytes; lia).
    rewrite !le_value_le_bytes. change (256 ^ Z.of_nat 2) with 65536.
    rewrite !Z.mod_small by lia. reflexivity.
Qed.

(** The split of the accumulation buffer made by [process_end]. *)
Lemma split_rawbuff (rb : bytes) (isz : nat) :
  (isz + 2 <= length rb)%nat ->
  slice (slice rb 0 (isz + 2)) 0 isz = take isz rb /\
  unpack1 LittleEndian fmt_H (drop isz (slice rb 0 (isz + 2)))
    = Ok (le_value (take 2 (drop isz rb))) /\
  length (take isz rb) = isz.
Proof.
  intros HL. unfold slice. rewrite !drop_0, !Nat.sub_0_r.
  split; [|split].
  - rewrite take_take. f_equal. lia.
  - rewrite <- take_drop_commute.
    unfold unpack1, struct_unpack.
    rewrite length_take, length_drop.
    replace (Nat.min 2 (length rb - isz)) with 2%nat by lia.
    cbn [calcsize foldr fmt_size Nat.add Nat.eqb rbind unpack_items int_value].
    rewrite take_take. reflexivity.
  - rewrite length_take. lia.
Qed.

(** [process_end] on a complete frame: the first [imgsz] bytes are the raw
    image, the next two the footer, the rest stays in [rawbuff]; the status
    decides what happens to the frame. *)
Lemma process_end_complete (s : CapImgN) (rb : bytes) (status counter : Z)
    (pad : bytes) :
  rawbuff s = Some rb ->
  imgx_sz s = (imgsz s + 2)%nat ->
  (imgsz s + 2 <= length rb)%nat ->
  0 <= status < 65536 -> 0 <= counter < 65536 ->
  let endbuff :=
    le_bytes 2 MSG_END ++ le_bytes 2 status ++ le_bytes 2 counter ++ pad in
  let s1 := set_rawbuff (Some (drop (imgsz s + 2) rb)) s in
  process_end endbuff s =
    if status =? STATUS_NOK then (s1, Ok tt)
    else if status =? STATUS_OK then
      (set_completions
         (completions s ++
            [(counter, take (imgsz s) rb, le_value (take 2 (drop (imgsz s) rb)))])
         s1, Ok tt)
    else (s1, Raise AssertionError).
Proof.
  intros Hrb Hx HL Hs Hc endbuff s1.
  destruct (end_buffer_fields status counter pad Hs Hc) as [Hop Hsc].
  fold endbuff in Hop, Hsc.
  destruct (split_rawbuff rb (imgsz s) HL) as (Himg & Hfoot & Hlen).
  unfold process_end, bind, gets, lift, modify. rewrite Hrb, Hx.
  cbn [set_rawbuff imgsz rawbuff completions].
  rewrite Hfoot, Hop. change (MSG_END =? MSG_END) with true.
  cbn [assert ret]. rewrite Hsc, Himg, Hlen, Nat.eqb_refl.
  destruct (status =? STATUS_NOK); [reflexivity|].
  destruct (status =? STATUS_OK); reflexivity.
Qed.

(** [handle_buff] on the END buffer of a complete frame. *)
Lemma handle_buff_end_complete (s : CapImgN) (rb : bytes) (status counter : Z)
    (pad : bytes) :
  state s = MSG_BEGIN ->
  rawbuff s = Some rb ->
  imgx_sz s = (imgsz s + 2)%nat ->
  (imgsz s + 2 <= length rb)%nat ->
  0 <= status < 65536 -> 0 <= counter < 65536 ->
  let endbuff :=
    le_bytes 2 MSG_END ++ le_bytes 2 status ++ le_bytes 2 counter ++ pad in
  handle_buff endbuff s =
    match process_end endbuff s with
    | (s1, Ok _) => (set_state MSG_END (set_rawbuff None s1), Ok tt)
    | (s1, Raise e) => (s1, Raise e)
    end.
Proof.
  intros Hst Hrb Hx HL Hs Hc endbuff.
  destruct (end_buffer_fields status counter pad Hs Hc) as [Hop _].
  fold endbuff in Hop.
  unfold handle_buff, bind, lift, gets.
  rewrite (is_sync_leading_word _ _ Hop).
  change (if 0x4000 <=? MSG_END then MSG_END else 0) with MSG_END.
  change (MSG_END =? MSG_WTF) with false. cbv beta iota. rewrite Hst.
  change (MSG_BEGIN =? MSG_END) with false.
  change (MSG_BEGIN =? MSG_BEGIN) with true.
  change (MSG_END =? 0) with false.
  change (MSG_END =? MSG_END) with true.
  cbv beta iota. cbn [negb assert ret].
  destruct (process_end endbuff s) as [s1 [[]|e]]; reflexivity.
Qed.

(** ** Frame decoder *)

Lemma for_each_app {A B} (xs ys : list B) (body : B -> A -> result A) (a : A) :
  for_each (xs ++ ys) body a
  = (do a' <- for_each xs body a; for_each ys body a')%result.
Proof.
  revert a. induction xs as [|x xs IH]; intros a; cbn [for_each app rbind].
  - reflexivity.
  - destruct (body x a) as [a'|e]; cbn [rbind]; [apply IH|reflexivity].
Qed.

(** A loop whose body keeps an invariant and does not raise. *)
Lemma for_each_invariant {A B} (P : A -> Prop) (xs : list B)
    (body : B -> A -> result A) (a : A) :
  P a ->
  (forall x a0, In x xs -> P a0 -> exists a1, body x a0 = Ok a1 /\ P a1) ->
  exists a', for_each xs body a = Ok a' /\ P a'.
Proof.
  revert a. induction xs as [|x xs IH]; intros a Ha Hbody; cbn [for_each].
  - now exists a.
  - destruct (Hbody x a (or_introl eq_refl) Ha) as (a1 & E & Ha1).
    rewrite E. cbn [rbind]. apply IH; [exact Ha1|].
    intros x' a0 Hin. apply Hbody. now right.
Qed.

(** A loop that raises at its first element on which the body raises. *)
Lemma for_each_raises_at {A B} (P : A -> Prop) (xs : list B) (x : B)
    (ys : list B) (body : B -> A -> result A) (a : A) (e : exn) :
  P a ->
  (forall x' a0, In x' xs -> P a0 -> exists a1, body x' a0 = Ok a1 /\ P a1) ->
  (forall a0, P a0 -> body x a0 = Raise e) ->
  for_each (xs ++ x :: ys) body a = Raise e.
Proof.
  intros Ha Hxs Hx. rewrite for_each_app.
  destruct (for_each_invariant P xs body a Ha Hxs) as (a' & E & Ha').
  rewrite E. cbn [rbind for_each]. now rewrite (Hx a' Ha').
Qed.

Lemma range_split (k m : nat) :
  (k < m)%nat -> range m = seq 0 k ++ k :: seq (S k) (m - S k).
Proof.
  intros H. unfold range.
  replace m with (k + S (m - S k))%nat at 1 by lia.
  rewrite seq_app. reflexivity.
Qed.

Lemma index_ok (buff : bytes) (i : nat) :
  (i < length buff)%nat -> exists v, index buff i = Ok v.
Proof.
  intros H. unfold index.
  destruct (buff !! i) as [b|] eqn:E; [now eexists|].
  apply lookup_ge_None in E. lia.
Qed.

Lemma decode_pixel_inside (line0 : bytes) (X Y x y : nat) (img : image) :
  (2 * x + 1 < length line0)%nat -> (x < X)%nat -> (y < Y)%nat ->
  has_size X Y img ->
  exists img', decode_pixel line0 y x img = Ok img' /\ has_size X Y img'.
Proof.
  intros HL Hx Hy [HX HY]. unfold decode_pixel.
  destruct (index_ok line0 (2 * x + 0)) as [b0 ->]; [lia|].
  destruct (index_ok line0 (2 * x + 1)) as [b1 ->]; [lia|].
  cbn [rbind]. unfold putpixel. rewrite HX, HY.
  destruct (Nat.ltb_spec x X); [|lia]. destruct (Nat.ltb_spec y Y); [|lia].
  cbn [andb]. eexists; split; [reflexivity|]. now split.
Qed.

Lemma decode_pixel_outside (line0 : bytes) (X Y x y : nat) (img : image) :
  (2 * x + 1 < length line0)%nat -> (X <= x \/ Y <= y)%nat ->
  has_size X Y img ->
  decode_pixel line0 y x img = Raise IndexError.
Proof.
  intros HL Hout [HX HY]. unfold decode_pixel.
  destruct (index_ok line0 (2 * x + 0)) as [b0 ->]; [lia|].
  destruct (index_ok line0 (2 * x + 1)) as [b1 ->]; [lia|].
  cbn [rbind]. unfold putpixel. rewrite HX, HY.
  destruct (Nat.ltb_spec x X); destruct (Nat.ltb_spec y Y); cbn [andb];
    try reflexivity. lia.
Qed.

Lemma length_line0 (buff : bytes) (width height y : nat) :
  length buff = (width * height * 2)%nat -> (y < height)%nat ->
  length (slice buff (y * width * 2) ((y + 1) * width * 2)) = (width * 2)%nat.
Proof.
  intros HL Hy. unfold slice. rewrite length_take, length_drop, HL. nia.
Qed.

(** A row that fits in the image is decoded without an exception. *)
Lemma decode_row_inside (buff : bytes) (width height X Y y : nat) (img : image) :
  length buff = (width * height * 2)%nat -> (y < height)%nat ->
  (width <= X)%nat -> (y < Y)%nat ->
  has_size X Y img ->
  exists img', decode_row buff width 2 y img = Ok img' /\ has_size X Y img'.
Proof.
  intros HL Hy HX HY Himg. unfold decode_row.
  apply for_each_invariant; [exact Himg|].
  intros x img0 Hin Himg0. apply in_seq in Hin.
  apply decode_pixel_inside; try lia; [|exact Himg0].
  rewrite (length_line0 buff width height y HL Hy). lia.
Qed.

(** C2 (the code at its inputs): [decode] allocates its image with the size
    (height, width) and then writes pixel (x, y) for x below width and y
    below height.  For every buffer of width*height*2 bytes with a width
    and a height that differ, among them the geometry 2368 by 2340 and the
    buffer [0x34,0x12,0x00,0x00] with width 2 and height 1, the call raises
    [IndexError] and returns no grid. *)
Theorem decode_raises_unless_square (buff : bytes) (width height : nat) :
  length buff = (width * height * 2)%nat ->
  (0 < width)%nat -> (0 < height)%nat -> width <> height ->
  decode buff width height 2 = Raise IndexError.
Proof.
  intros HL Hw Hh Hne. unfold decode. rewrite HL, Nat.eqb_refl. cbn [negb].
  set (img0 := Image_new (height, width) White).
  assert (H0 : has_size height width img0) by (now split).
  destruct (Nat.lt_ge_cases height width) as [Hlt|Hge].
  - (* wider than high: row 0 leaves the image at column [height] *)
    rewrite (range_split 0 height Hh). cbn [seq app for_each].
    replace (decode_row buff width 2 0 img0) with (@Raise image IndexError);
      [reflexivity|].
    symmetry. unfold decode_row. rewrite (range_split height width Hlt).
    pose proof (length_line0 buff width height 0 HL Hh) as HLine.
    apply (for_each_raises_at (has_size height width)); [exact H0| |].
    + intros x img Hin Himg. apply in_seq in Hin.
      apply decode_pixel_inside; try lia; exact Himg.
    + intros img Himg.
      apply (decode_pixel_outside _ height width); [lia|lia|exact Himg].
  - (* higher than wide: row [width] is below the image *)
    assert (Hlt : (width < height)%nat) by lia.
    rewrite (range_split width height Hlt).
    apply (for_each_raises_at (has_size height width)); [exact H0| |].
    + intros y img Hin Himg. apply in_seq in Hin.
      apply (decode_row_inside buff width height); try lia; exact Himg.
    + intros img Himg. unfold decode_row.
      rewrite (range_split 0 width Hw). cbn [seq app for_each].
      pose proof (length_line0 buff width height width HL Hlt) as HLine.
      rewrite (decode_pixel_outside _ height width 0 width img);
        [reflexivity|lia|lia|exact Himg].
Qed.

Lemma decode_raises_unless_square_witness :
  decode [x34; x12; x00; x00] 2 1 2 = Raise IndexError.
Proof.
  apply (decode_raises_unless_square [x34; x12; x00; x00] 2 1);
    [reflexivity | lia | lia | discriminate].
Defined.

(** A loop over [range n] whose body takes an invariant from one index to
    the next. *)
Lemma for_seq_invariant {A} (P : nat -> A -> Prop) (start len : nat)
    (body : nat -> A -> result A) (a : A) :
  P start a ->
  (forall i a0, (start <= i < start + len)%nat -> P i a0 ->
     exists a1, body i a0 = Ok a1 /\ P (S i) a1) ->
  exists a', for_each (seq start len) body a = Ok a' /\ P (start + len)%nat a'.
Proof.
  revert start a. induction len as [|len IH]; intros start a Ha Hbody.
  - exists a. rewrite Nat.add_0_r. now split.
  - cbn [seq for_each].
    destruct (Hbody start a ltac:(lia) Ha) as (a1 & E & Ha1).
    rewrite E. cbn [rbind].
    destruct (IH (S start) a1 Ha1) as (a' & E' & Ha').
    { intros i a0 Hi. apply Hbody. lia. }
    exists a'. split; [exact E'|].
    now replace (start + S len)%nat with (S start + len)%nat by lia.
Qed.

Lemma two_bytes_at (buff : bytes) (i : nat) :
  (i + 1 < length buff)%nat ->
  exists b0 b1,
    buff !! i = Some b0 /\ buff !! (i + 1)%nat = Some b1 /\
    slice buff i (i + 2) = [b0; b1].
Proof.
  intros H.
  destruct (buff !! i) as [b0|] eqn:E0;
    [|apply lookup_ge_None in E0; lia].
  destruct (buff !! (i + 1)%nat) as [b1|] eqn:E1;
    [|apply lookup_ge_None in E1; lia].
  exists b0, b1. repeat split.
  unfold slice. replace (i + 2 - i)%nat with 2%nat by lia.
  apply list_eq. intros j. rewrite lookup_take, lookup_drop.
  destruct j as [|[|j]]; cbn.
  - now rewrite Nat.add_0_r.
  - exact E1.
  - reflexivity.
Qed.

(** One pixel of a square image: the sample is put at its place. *)
Lemma decode_pixel_sample (buff : bytes) (k x y : nat) (img : image) :
  length buff = (k * k * 2)%nat -> (x < k)%nat -> (y < k)%nat ->
  decoded_upto buff k y x img ->
  exists img',
    decode_pixel (slice buff (y * k * 2) ((y + 1) * k * 2)) y x img = Ok img' /\
    decoded_upto buff k y (S x) img'.
Proof.
  intros HL Hx Hy ((HX & HY) & Hlen & Hpix).
  destruct (two_bytes_at buff (2 * (y * k + x))) as (b0 & b1 & E0 & E1 & Esl);
    [nia|].
  assert (I0 : index (slice buff (y * k * 2) ((y + 1) * k * 2)) (2 * x + 0)
               = Ok (Z_of_byte b0)).
  { unfold index, slice. rewrite lookup_take, lookup_drop.
    case_decide; [|nia].
    replace (y * k * 2 + (2 * x + 0))%nat with (2 * (y * k + x))%nat by lia.
    now rewrite E0. }
  assert (I1 : index (slice buff (y * k * 2) ((y + 1) * k * 2)) (2 * x + 1)
               = Ok (Z_of_byte b1)).
  { unfold index, slice. rewrite lookup_take, lookup_drop.
    case_decide; [|nia].
    replace (y * k * 2 + (2 * x + 1))%nat with (2 * (y * k + x) + 1)%nat by lia.
    now rewrite E1. }
  unfold decode_pixel. rewrite I0, I1. cbn [rbind].
  unfold putpixel. rewrite HX, HY.
  destruct (Nat.ltb_spec x k); [|lia]. destruct (Nat.ltb_spec y k); [|lia].
  cbn [andb]. eexists; split; [reflexivity|].
  split; [now split|]. cbn [pixels]. split; [now rewrite length_insert|].
  intros x' y' Hx' Hwhere.
  destruct (Nat.eq_dec (y' * k + x')%nat (y * k + x)%nat) as [Heq|Hne].
  - assert (y' = y /\ x' = x) as [-> ->] by nia.
    rewrite list_lookup_insert_eq by nia. f_equal.
    unfold sample. rewrite Esl. cbn [le_value].
    rewrite Z.shiftl_mul_pow2 by lia. change (2 ^ 8) with 256. lia.
  - rewrite list_lookup_insert_ne by congruence.
    apply Hpix; [exact Hx'|]. destruct Hwhere as [|[-> Hlt]]; [now left|].
    right. split; [reflexivity|]. assert (x' <> x) by congruence. lia.
Qed.

(** One row of a square image. *)
Lemma decode_row_samples (buff : bytes) (k y : nat) (img : image) :
  length buff = (k * k * 2)%nat -> (y < k)%nat ->
  decoded_upto buff k y 0 img ->
  exists img',
    decode_row buff k 2 y img = Ok img' /\ decoded_upto buff k (S y) 0 img'.
Proof.
  intros HL Hy Himg. unfold decode_row, range.
  destruct (for_seq_invariant (decoded_upto buff k y) 0 k
              (decode_pixel (slice buff (y * k * 2) ((y + 1) * k * 2)) y) img Himg)
    as (img' & E & (Hsz & Hlen & Hpix)).
  { intros x img0 Hx H0. apply decode_pixel_sample; try assumption; lia. }
  exists img'. split; [exact E|]. split; [exact Hsz|]. split; [exact Hlen|].
  intros x' y' Hx' Hwhere. apply Hpix; [exact Hx'|].
  cbn [Nat.add] in *. lia.
Qed.

(** On a square geometry, the one of the 1032 by 1032 sensor, [decode] does
    what the specification says: it returns a grid of that size in which
    the pixel at row [y], column [x] is the little-endian 16-bit value at
    byte offset [2 * (y * width + x)]. *)
Lemma decode_square (buff : bytes) (k : nat) :
  length buff = (k * k * 2)%nat ->
  exists img,
    decode buff k k 2 = Ok img /\
    xsize img = k /\ ysize img = k /\
    forall x y, (x < k)%nat -> (y < k)%nat ->
      getpixel img (x, y) = Ok (sample buff k x y).
Proof.
  intros HL. unfold decode. rewrite HL, Nat.eqb_refl. cbn [negb].
  set (img0 := Image_new (k, k) White).
  assert (H0 : decoded_upto buff k 0 0 img0).
  { split; [now split|]. split; [apply length_replicate|]. intros; lia. }
  destruct (for_seq_invariant (fun y => decoded_upto buff k y 0) 0 k
              (decode_row buff k 2) img0 H0)
    as (img & E & ((HX & HY) & Hlen & Hpix)).
  { intros y img1 Hy H1. apply decode_row_samples; try assumption; lia. }
  exists img. split; [exact E|]. split; [exact HX|]. split; [exact HY|].
  intros x y Hx Hy. unfold getpixel. rewrite HX, HY.
  destruct (Nat.ltb_spec x k); [|lia]. destruct (Nat.ltb_spec y k); [|lia].
  cbn [andb]. rewrite (Hpix x y Hx) by (cbn [Nat.add]; lia). reflexivity.
Qed.

(** An all-zero buffer of a square geometry decodes to an all-zero grid. *)
Lemma decode_square_zero (k : nat) :
  exists img,
    decode (replicate (k * k * 2) x00) k k 2 = Ok img /\
    forall x y, (x < k)%nat -> (y < k)%nat -> getpixel img (x, y) = Ok 0.
Proof.
  destruct (decode_square (replicate (k * k * 2) x00) k (length_replicate _ _))
    as (img & E & _ & _ & Hpix).
  exists img. split; [exact E|]. intros x y Hx Hy.
  rewrite (Hpix x y Hx Hy). f_equal. unfold sample, slice.
  rewrite drop_replicate, take_replicate.
  replace (Nat.min _ _) with 2%nat by nia. reflexivity.
Qed.

(** C3 (as the code has it): when the END buffer of a complete frame, with
    status OK or NOK, is handled in a frame, [process_end] splits the
    accumulation buffer into the first [imgsz] bytes (the raw image), the
    two bytes of the footer and the rest, which it leaves in [rawbuff];
    [handle_buff] then sets [rawbuff] to [None], and the BEGIN buffer that
    follows starts from an empty buffer: the bytes beyond image and footer
    are not carried into the following frame. *)
Theorem handle_buff_end_drops_leftover (s : CapImgN) (rb : bytes)
    (status counter : Z) (pad pad' : bytes) :
  state s = MSG_BEGIN ->
  rawbuff s = Some rb ->
  imgx_sz s = (imgsz s + 2)%nat ->
  (imgsz s + 2 <= length rb)%nat ->
  status = STATUS_OK \/ status = STATUS_NOK ->
  0 <= counter < 65536 ->
  let endbuff := end_buffer status counter pad in
  let s1 := fst (process_end endbuff s) in
  let s2 := fst (handle_buff endbuff s) in
  let s3 := fst (handle_buff (le_bytes 2 MSG_BEGIN ++ pad') s2) in
  rawbuff s1 = Some (drop (imgsz s + 2) rb) /\
  (status = STATUS_OK ->
   completions s1 =
     completions s ++
       [(counter, take (imgsz s) rb, le_value (take 2 (drop (imgsz s) rb)))]) /\
  snd (handle_buff endbuff s) = Ok tt /\
  rawbuff s2 = None /\ state s2 = MSG_END /\
  completions s2 = completions s1 /\
  rawbuff s3 = Some [] /\ state s3 = MSG_BEGIN.
Proof.
  intros Hst Hrb Hx HL Hstatus Hc endbuff s1 s2 s3.
  assert (Hs : 0 <= status < 65536)
    by (destruct Hstatus; subst status; unfold STATUS_OK, STATUS_NOK; lia).
  pose proof (process_end_complete s rb status counter pad Hrb Hx HL Hs Hc) as Hpe.
  pose proof (handle_buff_end_complete s rb status counter pad Hst Hrb Hx HL Hs Hc)
    as Hhb.
  cbv zeta in Hpe, Hhb. fold (end_buffer status counter pad) in Hpe, Hhb.
  fold endbuff in Hpe, Hhb.
  assert (Hbegin : forall t, state t = MSG_END ->
            handle_buff (le_bytes 2 MSG_BEGIN ++ pad') t
            = (set_packets 0 (set_rawbuff (Some []) (set_state MSG_BEGIN t)), Ok tt)).
  { intros t Ht. unfold handle_buff, bind, lift, gets.
    rewrite (is_sync_leading_word _ MSG_BEGIN)
      by (apply unpack16_le_le_bytes; unfold MSG_BEGIN; lia).
    change (if 0x4000 <=? MSG_BEGIN then MSG_BEGIN else 0) with MSG_BEGIN.
    change (MSG_BEGIN =? MSG_WTF) with false. cbv beta iota. rewrite Ht.
    reflexivity. }
  subst s1 s2 s3. rewrite Hhb, Hpe.
  destruct Hstatus as [-> | ->].
  - change (STATUS_OK =? STATUS_NOK) with false.
    change (STATUS_OK =? STATUS_OK) with true. cbv iota.
    cbn [fst snd]. rewrite Hbegin by reflexivity.
    repeat split.
  - change (STATUS_NOK =? STATUS_NOK) with true. cbv iota.
    cbn [fst snd]. rewrite Hbegin by reflexivity.
    repeat split. intros [=].
Qed.

Lemma handle_buff_end_drops_leftover_witness :
  let s := in_frame_leftover in
  let endbuff := end_buffer STATUS_OK 7 [] in
  let s1 := fst (process_end endbuff s) in
  let s2 := fst (handle_buff endbuff s) in
  let s3 := fst (handle_buff (le_bytes 2 MSG_BEGIN ++ []) s2) in
  rawbuff s1 = Some [x09; x09] /\
  (STATUS_OK = STATUS_OK ->
   completions s1 = completions s ++ [(7, [x00; x00], 5)]) /\
  snd (handle_buff endbuff s) = Ok tt /\
  rawbuff s2 = None /\ state s2 = MSG_END /\
  completions s2 = completions s1 /\
  rawbuff s3 = Some [] /\ state s3 = MSG_BEGIN.
Proof.
  apply (handle_buff_end_drops_leftover in_frame_leftover
           [x00; x00; x05; x00; x09; x09] STATUS_OK 7 [] []);
    [reflexivity | reflexivity | reflexivity | simpl; lia | now left | lia].
Defined.

(** C3 (the statement of the specification fails): after the END buffer of
    a frame whose accumulation buffer holds two bytes beyond image and
    footer, the accumulation buffer does not hold them. *)
Lemma leftover_not_retained :
  ~ leftover_retained in_frame_leftover (end_buffer STATUS_OK 7 []).
Proof.
  intros H. specialize (H [x00; x00; x05; x00; x09; x09] eq_refl).
  vm_compute in H. discriminate H.
Qed.

(** C5 (as the code has it): for the END buffer of a frame handled while in
    a frame whose accumulation buffer holds at least [imgsz + 2] bytes:
    status 3 appends (counter, raw image, footer value) to the completions;
    status 7 appends nothing and raises nothing; any other status raises
    [AssertionError]; the completions are unchanged unless the status is 3. *)
Theorem handle_buff_end_status (s : CapImgN) (rb : bytes) (status counter : Z)
    (pad : bytes) :
  state s = MSG_BEGIN ->
  rawbuff s = Some rb ->
  imgx_sz s = (imgsz s + 2)%nat ->
  (imgsz s + 2 <= length rb)%nat ->
  0 <= status < 65536 -> 0 <= counter < 65536 ->
  let r := handle_buff (end_buffer status counter pad) s in
  (status = STATUS_OK ->
   snd r = Ok tt /\
   completions (fst r) =
     completions s ++
       [(counter, take (imgsz s) rb, le_value (take 2 (drop (imgsz s) rb)))]) /\
  (status = STATUS_NOK ->
   snd r = Ok tt /\ completions (fst r) = completions s) /\
  (status <> STATUS_OK -> status <> STATUS_NOK ->
   snd r = Raise AssertionError /\ completions (fst r) = completions s).
Proof.
  intros Hst Hrb Hx HL Hs Hc r.
  pose proof (process_end_complete s rb status counter pad Hrb Hx HL Hs Hc) as Hpe.
  pose proof (handle_buff_end_complete s rb status counter pad Hst Hrb Hx HL Hs Hc)
    as Hhb.
  cbv zeta in Hpe, Hhb. fold (end_buffer status counter pad) in Hpe, Hhb.
  subst r. rewrite Hhb, Hpe.
  destruct (Z.eqb_spec status STATUS_NOK) as [HN|HN];
    [|destruct (Z.eqb_spec status STATUS_OK) as [HO|HO]].
  - split; [|split].
    + intros HO. subst status. discriminate HO.
    + intros _. now split.
    + intros _ HN'. contradiction.
  - split; [|split].
    + intros _. now split.
    + intros HN'. contradiction.
    + intros HO'. contradiction.
  - split; [|split].
    + intros HO'. contradiction.
    + intros HN'. contradiction.
    + intros _ _. now split.
Qed.

Lemma handle_buff_end_status_witness :
  let s := in_frame_leftover in
  let r := handle_buff (end_buffer STATUS_NOK 7 [x00; x00]) s in
  snd r = Ok tt /\ completions (fst r) = completions s.
Proof.
  cbv zeta.
  refine (proj1 (proj2 (handle_buff_end_status in_frame_leftover
            [x00; x00; x05; x00; x09; x09] STATUS_NOK 7 [x00; x00]
            _ _ _ _ _ _)) eq_refl);
    [reflexivity | reflexivity | reflexivity | simpl; lia
    | unfold STATUS_NOK; lia | lia].
Defined.

(** C5 (the statement of the specification fails): an END buffer with
    status 7 that arrives right after BEGIN, before the frame's bytes, is
    not dropped in silence: unpacking the footer raises [struct.error]. *)
Lemma nok_on_short_frame_raises :
  state in_frame_empty = MSG_BEGIN /\
  snd (handle_buff (end_buffer STATUS_NOK 0 []) in_frame_empty)
    = Raise StructError /\
  ~ end_status_handled in_frame_empty STATUS_NOK 0 [].
Proof.
  split; [reflexivity|]. split; [reflexivity|].
  intros (_ & H & _). destruct (H eq_refl) as [H1 _].
  vm_compute in H1. discriminate H1.
Qed.

(** ** Session facade *)

Lemma decode_wrong_length (buff : bytes) (width height depth : nat) :
  length buff <> (width * height * depth)%nat ->
  decode buff width height depth = Raise AssertionError.
Proof.
  intros H. unfold decode.
  destruct (Nat.eqb_spec (length buff) (width * height * depth)); [contradiction|].
  reflexivity.
Qed.

(** C10 (as the code has it): [Hamamatsu.decode] calls the frame decoder
    with the session's width and height and drops what it returns: the
    method returns [None] when the decoder returns, raises what the decoder
    raises, raises [TypeError] while the session has no width or height,
    and in no case returns an image. *)
Theorem Hamamatsu_decode_drops_image (self : Hamamatsu) (buff : bytes) :
  match ham_width self, ham_height self with
  | Some width, Some height =>
      match decode buff width height 2 with
      | Ok _ => Hamamatsu_decode self buff = Ok None
      | Raise e => Hamamatsu_decode self buff = Raise e
      end
  | _, _ => Hamamatsu_decode self buff = Raise TypeError
  end /\
  forall img, Hamamatsu_decode self buff <> Ok (Some img).
Proof.
  unfold Hamamatsu_decode.
  destruct (ham_width self) as [w|], (ham_height self) as [h|];
    try (split; [reflexivity | discriminate]).
  destruct (decode buff w h 2) as [img|e]; cbn [rbind];
    split; try reflexivity; discriminate.
Qed.

(** C10 (the statement of the specification fails): on a buffer that has not
    the size of the image the method does not return [None], it raises. *)
Lemma Hamamatsu_decode_empty_buffer_raises :
  Hamamatsu_decode (mk_Hamamatsu (Some 1032%nat) (Some 1032%nat) 2) []
  = Raise AssertionError.
Proof.
  unfold Hamamatsu_decode. cbn [ham_width ham_height].
  rewrite decode_wrong_length; [reflexivity|]. cbn [length]. lia.
Qed.

(** ** The transfer pool *)

Lemma count_insert_false (l : list bool) (i : nat) :
  l !! i = Some true ->
  (length (filter (fun t => t = true) (<[i := false]> l)) + 1
   = length (filter (fun t => t = true) l))%nat.
Proof.
  revert i. induction l as [|t l IH]; intros i H; [discriminate|].
  destruct i as [|i]; cbn in H.
  - injection H as ->. change (<[0%nat := false]> (true :: l)) with (false :: l).
    rewrite !filter_cons.
    repeat case_decide; try congruence. cbn [length]. lia.
  - change (<[S i := false]> (t :: l)) with (t :: <[i := false]> l).
    rewrite !filter_cons. specialize (IH i H).
    case_decide; cbn [length]; lia.
Qed.

Lemma count_unsubmit_submit (l : list bool) (i : nat) :
  l !! i = Some true -> <[i := true]> (<[i := false]> l) = l.
Proof.
  intros H. rewrite list_insert_insert_eq. now apply list_insert_id.
Qed.

Lemma count_app_true (l : list bool) :
  length (filter (fun t => t = true) (l ++ [true]))
  = S (length (filter (fun t => t = true) l)).
Proof.
  rewrite filter_app, length_app, filter_cons_True by reflexivity.
  rewrite filter_nil. cbn [length]. lia.
Qed.

(** Methods that keep a relation that is reflexive and transitive. *)
Section Keeps.
Variable R : CapImgN -> CapImgN -> Prop.
Hypothesis R_refl : forall s, R s s.
Hypothesis R_trans : forall s1 s2 s3, R s1 s2 -> R s2 s3 -> R s1 s3.

Lemma keeps_ret {A} (a : A) : keeps R (ret a).
Proof. intros s. apply R_refl. Qed.

Lemma keeps_raise {A} (e : exn) : keeps R (@raise A e).
Proof. intros s. apply R_refl. Qed.

Lemma keeps_lift {A} (r : result A) : keeps R (lift r).
Proof. intros s. apply R_refl. Qed.

Lemma keeps_gets {A} (f : CapImgN -> A) : keeps R (gets f).
Proof. intros s. apply R_refl. Qed.

Lemma keeps_assert (c : bool) : keeps R (assert c).
Proof. destruct c; [apply keeps_ret | apply keeps_raise]. Qed.

Lemma keeps_modify (f : CapImgN -> CapImgN) :
  (forall s, R s (f s)) -> keeps R (modify f).
Proof. intros H s. apply H. Qed.

Lemma keeps_bind {A B} (c : M A) (k : A -> M B) :
  keeps R c -> (forall a, keeps R (k a)) -> keeps R (bind c k).
Proof.
  intros Hc Hk s. unfold bind. specialize (Hc s).
  destruct (c s) as [s1 [a|e]]; cbn [fst] in *; [|exact Hc].
  eapply R_trans; [exact Hc | apply Hk].
Qed.

End Keeps.

Ltac keeps_step Hr Ht :=
  first
    [ apply (keeps_bind _ Ht); [| intros ?]
    | apply (keeps_ret _ Hr)
    | apply (keeps_raise _ Hr)
    | apply (keeps_lift _ Hr)
    | apply (keeps_gets _ Hr)
    | apply (keeps_assert _ Hr)
    | match goal with
      | |- keeps _ (match ?x with _ => _ end) => destruct x
      end ].

Lemma same_pool_refl (s : CapImgN) : same_pool s s.
Proof. now repeat split. Qed.

Lemma same_pool_trans (s1 s2 s3 : CapImgN) :
  same_pool s1 s2 -> same_pool s2 s3 -> same_pool s1 s3.
Proof.
  unfold same_pool. intros (A1 & A2 & A3 & A4 & A5) (B1 & B2 & B3 & B4 & B5).
  repeat split; congruence.
Qed.

Lemma process_end_same_pool (endbuff : bytes) :
  keeps same_pool (process_end endbuff).
Proof.
  unfold process_end.
  repeat (keeps_step same_pool_refl same_pool_trans
          || (apply keeps_modify; intros ?; now repeat split)).
Qed.

(** [handle_buff] works on the state machine only. *)
Lemma handle_buff_same_pool (buff : bytes) :
  keeps same_pool (handle_buff buff).
Proof.
  unfold handle_buff.
  repeat (keeps_step same_pool_refl same_pool_trans
          || apply process_end_same_pool
          || (apply keeps_modify; intros ?; now repeat split)).
Qed.

(** What a callback does to the pool: it submits its transfer again (in the
    state waiting for BEGIN only when one read is counted), or leaves the
    pool alone, or, when the session is not running, takes one off the
    counter. *)
Lemma async_cb_pool (i : nat) (buff : bytes) (t : CapImgN) :
  let t' := fst (async_cb i buff t) in
  urb_max t' = urb_max t /\ n t' = n t /\
  ((trans_l t' = <[i := true]> (trans_l t) /\ urb_remain t' = urb_remain t /\
    (state t' = MSG_END -> urb_remain t = 1))
   \/ (trans_l t' = trans_l t /\ urb_remain t' = urb_remain t)
   \/ (trans_l t' = trans_l t /\ urb_remain t' = urb_remain t - 1 /\
       state t' = state t /\ running t = false)).
Proof.
  unfold async_cb, try_except, bind, gets. destruct (running t) eqn:R.
  - pose proof (handle_buff_same_pool buff t) as P.
    destruct (handle_buff buff t) as [t1 [[]|e]].
    + destruct P as (P1 & P2 & P3 & P4 & P5). cbn [fst] in *.
      rewrite P4, R.
      destruct (Z.eqb_spec (state t1) MSG_END) as [E1|E1];
        [destruct (Z.eqb_spec (urb_remain t1) 1) as [E2|E2]|]; cbn [andb].
      * cbn. repeat split; try assumption. left. repeat split; congruence.
      * rewrite E1. change (MSG_END =? MSG_BEGIN) with false. cbn.
        repeat split; try assumption. right. left. now split.
      * destruct (Z.eqb_spec (state t1) MSG_BEGIN) as [E3|E3]; cbn.
        -- repeat split; try assumption. left. repeat split; congruence.
        -- repeat split; try assumption. right. left. now split.
    + destruct P as (P1 & P2 & P3 & P4 & P5). cbn [fst] in *. cbn.
      repeat split; try assumption. right. left. now split.
  - cbn. rewrite R. cbn. repeat split. right. right. repeat split.
Qed.

(** One delivery: the transfer leaves the submitted ones, then its callback
    runs. *)
Lemma deliver_pool_ok (i : nat) (buff : bytes) (s : CapImgN) :
  pool_ok s -> trans_l s !! i = Some true ->
  let s' := fst (async_cb i buff (set_trans_l (<[i := false]> (trans_l s)) s)) in
  pool_ok s' /\ lost s <= lost s' /\ urb_max s' = urb_max s /\ n s' = n s.
Proof.
  intros (Hout & Hmax & Hend) Hi.
  set (t := set_trans_l (<[i := false]> (trans_l s)) s).
  pose proof (async_cb_pool i buff t) as P. cbv zeta in P |- *.
  set (s' := fst (async_cb i buff t)) in *.
  pose proof (count_insert_false (trans_l s) i Hi) as Hc.
  assert (Ht : outstanding t + 1 = outstanding s)
    by (unfold outstanding, t; cbn [trans_l set_trans_l]; lia).
  destruct P as (Pmax & Pn &
                 [(Ptl & Pur & Pst) | [(Ptl & Pur) | (Ptl & Pur & Pst & _)]]);
    change (urb_max t) with (urb_max s) in Pmax; change (n t) with (n s) in Pn;
    change (urb_remain t) with (urb_remain s) in *;
    change (state t) with (state s) in *.
  - assert (Hs' : outstanding s' = outstanding s).
    { unfold outstanding. rewrite Ptl. unfold t. cbn [trans_l set_trans_l].
      now rewrite (count_unsubmit_submit _ _ Hi). }
    unfold pool_ok, lost. rewrite Hs', Pur, Pmax.
    repeat split; lia.
  - assert (Hs' : outstanding s' = outstanding t)
      by (unfold outstanding; now rewrite Ptl).
    unfold pool_ok, lost. rewrite Hs', Pur, Pmax.
    assert (0 <= outstanding t) by (unfold outstanding; lia).
    repeat split; lia.
  - assert (Hs' : outstanding s' = outstanding t)
      by (unfold outstanding; now rewrite Ptl).
    unfold pool_ok, lost. rewrite Hs', Pur, Pmax, Pst.
    assert (0 <= outstanding t) by (unfold outstanding; lia).
    repeat split; lia.
Qed.

Lemma handleEventsTimeout_cons (i : nat) (buff : bytes)
    (ds : list (nat * bytes)) (s : CapImgN) :
  handleEventsTimeout ((i, buff) :: ds) s =
    match trans_l s !! i with
    | Some true =>
        match async_cb i buff (set_trans_l (<[i := false]> (trans_l s)) s) with
        | (s1, Ok _) => handleEventsTimeout ds s1
        | (s1, Raise e) => (s1, Raise e)
        end
    | _ => handleEventsTimeout ds s
    end.
Proof.
  cbn [handleEventsTimeout]. unfold bind at 1, gets at 1.
  destruct (trans_l s !! i) as [[|]|]; reflexivity.
Qed.

Lemma handleEventsTimeout_pool_ok (ds : list (nat * bytes)) (s : CapImgN) :
  pool_ok s ->
  let s' := fst (handleEventsTimeout ds s) in
  pool_ok s' /\ lost s <= lost s' /\ urb_max s' = urb_max s /\ n s' = n s.
Proof.
  revert s. induction ds as [|[i buff] ds IH]; intros s Hs; cbv zeta.
  - cbn. repeat split; try apply Hs; lia.
  - rewrite handleEventsTimeout_cons.
    destruct (trans_l s !! i) as [[|]|] eqn:Hi; try (apply IH; exact Hs).
    destruct (deliver_pool_ok i buff s Hs Hi) as (H1 & H2 & H3 & H4).
    destruct (async_cb i buff _) as [s1 [[]|e]]; cbn [fst] in *.
    + destruct (IH s1 H1) as (I1 & I2 & I3 & I4).
      repeat split; try apply I1; try lia; congruence.
    + repeat split; try apply H1; try lia; congruence.
Qed.

Lemma alloc_urb_pool (k : nat) (s : CapImgN) :
  let s' := Nat.iter k alloc_one s in
  outstanding s' = outstanding s + Z.of_nat k /\
  urb_remain s' = urb_remain s + Z.of_nat k /\
  urb_max s' = urb_max s /\ n s' = n s /\ state s' = state s /\
  running s' = running s /\ completions s' = completions s.
Proof.
  cbv zeta. induction k as [|k IH].
  - cbn. repeat split; lia || reflexivity.
  - rewrite Nat.iter_succ. set (t := Nat.iter k alloc_one s) in *.
    destruct IH as (I1 & I2 & I3 & I4 & I5 & I6 & I7).
    unfold alloc_one, outstanding in *.
    cbn [trans_l urb_remain urb_max n state running completions
         set_urb_remain set_trans_l].
    rewrite count_app_true. repeat split; try assumption; lia.
Qed.

Lemma refill_pool_ok (s : CapImgN) :
  pool_ok s ->
  pool_ok (refill s) /\ lost (refill s) = lost s /\
  urb_max (refill s) = urb_max s /\ n (refill s) = n s.
Proof.
  intros (Hout & Hmax & Hend). unfold refill.
  destruct (running s && (state s =? MSG_BEGIN)) eqn:E;
    [|now repeat split].
  apply andb_prop in E as [_ E]. apply Z.eqb_eq in E.
  unfold alloc_urb.
  destruct (alloc_urb_pool (Z.to_nat (urb_max s - urb_remain s)) s)
    as (I1 & I2 & I3 & I4 & I5 & I6 & I7).
  unfold pool_ok, lost. rewrite I1, I2, I3, I4, I5, E.
  repeat split; try lia. intros [=].
Qed.

Lemma run_loop_pool_ok (timeout_ms : Z) (tr : list poll) (s : CapImgN) :
  pool_ok s ->
  let s' := fst (run_loop timeout_ms tr s) in
  pool_ok s' /\ lost s <= lost s' /\ urb_max s' = urb_max s /\ n s' = n s.
Proof.
  assert (Hnow : forall t, pool_ok t ->
            pool_ok t /\ lost t <= lost t /\ urb_max t = urb_max t /\ n t = n t)
    by (intros t Ht; repeat split; try apply Ht; lia).
  revert s. induction tr as [|p tr IH]; intros s Hs; cbv zeta; cbn [run_loop].
  - destruct (urb_remain s =? 0); cbn [fst]; now apply Hnow.
  - destruct (urb_remain s =? 0); [cbn [fst]; now apply Hnow|].
    set (s1 := set_running _ s).
    assert (H1 : pool_ok s1) by exact Hs.
    change (lost s) with (lost s1). change (urb_max s) with (urb_max s1).
    change (n s) with (n s1).
    destruct (timeout_ms <=? secs p * 1000); [cbn [fst]; now apply Hnow|].
    destruct (refill_pool_ok s1 H1) as (R1 & R2 & R3 & R4).
    destruct (handleEventsTimeout_pool_ok (deliveries p) (refill s1) R1)
      as (E1 & E2 & E3 & E4).
    destruct (handleEventsTimeout (deliveries p) (refill s1)) as [s2 [[]|e]];
      cbn [fst] in *.
    + destruct (IH s2 E1) as (I1 & I2 & I3 & I4).
      repeat split; try apply I1; try lia; congruence.
    + repeat split; try apply E1; try lia; congruence.
Qed.

(** ** The loop of [run] *)

Lemma run_start_pool_ok (width height depth : nat) (n : Z) :
  pool_ok (run_start (CapImgN_init width height depth n)) /\
  urb_max (run_start (CapImgN_init width height depth n)) = 31.
Proof.
  set (s := run_start (CapImgN_init width height depth n)).
  assert (Hout : outstanding s = 1).
  { unfold outstanding. change (trans_l s) with [true].
    rewrite filter_cons_True by reflexivity. reflexivity. }
  unfold pool_ok. rewrite Hout.
  change (urb_remain s) with 1. change (urb_max s) with 31.
  repeat split; lia.
Qed.

(** The loop over a script in two parts. *)
Lemma run_loop_app (timeout_ms : Z) (pre post : list poll) (s : CapImgN) :
  run_loop timeout_ms (pre ++ post) s =
    match run_loop timeout_ms pre s with
    | (s1, LoopPending) => run_loop timeout_ms post s1
    | r => r
    end.
Proof.
  revert s. induction pre as [|p pre IH]; intros s.
  - cbn [app run_loop]. destruct (urb_remain s =? 0) eqn:E; [|reflexivity].
    destruct post; cbn [run_loop]; now rewrite E.
  - cbn [app run_loop]. destruct (urb_remain s =? 0); [reflexivity|].
    destruct (timeout_ms <=? secs p * 1000); [reflexivity|].
    destruct (handleEventsTimeout _ _) as [s2 [[]|e]]; [apply IH|reflexivity].
Qed.

(** The loop is left waiting only with reads still counted. *)
Lemma run_loop_pending (timeout_ms : Z) (tr : list poll) (s s1 : CapImgN) :
  run_loop timeout_ms tr s = (s1, LoopPending) -> urb_remain s1 <> 0.
Proof.
  revert s. induction tr as [|p tr IH]; intros s; cbn [run_loop].
  - destruct (Z.eqb_spec (urb_remain s) 0); [discriminate|]. now intros [= <-].
  - destruct (urb_remain s =? 0); [discriminate|].
    destruct (timeout_ms <=? secs p * 1000); [discriminate|].
    destruct (handleEventsTimeout _ _) as [s2 [[]|e]]; [apply IH|discriminate].
Qed.

(** The loop ends normally only with the counter at zero. *)
Lemma run_loop_done (timeout_ms : Z) (tr : list poll) (s s1 : CapImgN) :
  run_loop timeout_ms tr s = (s1, LoopDone) -> urb_remain s1 = 0.
Proof.
  revert s. induction tr as [|p tr IH]; intros s; cbn [run_loop].
  - destruct (Z.eqb_spec (urb_remain s) 0); [|discriminate]. now intros [= <-].
  - destruct (Z.eqb_spec (urb_remain s) 0); [now intros [= <-]|].
    destruct (timeout_ms <=? secs p * 1000); [discriminate|].
    destruct (handleEventsTimeout _ _) as [s2 [[]|e]]; [apply IH|discriminate].
Qed.

(** Once a read is counted without being outstanding, the loop cannot end
    normally, whatever the transport delivers. *)
Lemma lost_read_blocks_return (timeout_ms : Z) (tr : list poll) (s : CapImgN) :
  pool_ok s -> 0 < lost s ->
  snd (run_loop timeout_ms tr s) <> LoopDone.
Proof.
  intros Hs Hlost Hdone.
  destruct (run_loop_pool_ok timeout_ms tr s Hs) as ((Hout & _) & Hmono & _).
  destruct (run_loop timeout_ms tr s) as [s1 r] eqn:E. cbn [fst snd] in *.
  subst r. apply run_loop_done in E. unfold lost in *. lia.
Qed.

(** A callback that runs while the session is running, with more than one
    read counted, and leaves the state machine waiting for BEGIN, loses its
    read: from then on [run] cannot return. *)
Lemma end_in_pipeline_blocks_return (i : nat) (buff : bytes) (s : CapImgN)
    (timeout_ms : Z) (tr : list poll) :
  pool_ok s -> trans_l s !! i = Some true ->
  running s = true -> urb_remain s <> 1 ->
  let s' := fst (async_cb i buff (set_trans_l (<[i := false]> (trans_l s)) s)) in
  state s' = MSG_END ->
  snd (run_loop timeout_ms tr s') <> LoopDone.
Proof.
  intros Hs Hi Hrun Hur s' Hst.
  destruct (deliver_pool_ok i buff s Hs Hi) as (H1 & H2 & _). fold s' in H1, H2.
  apply lost_read_blocks_return; [exact H1|].
  set (t := set_trans_l (<[i := false]> (trans_l s)) s) in *.
  pose proof (async_cb_pool i buff t) as P. cbv zeta in P. fold s' in P.
  pose proof (count_insert_false (trans_l s) i Hi) as Hc.
  assert (Ht : outstanding t + 1 = outstanding s)
    by (unfold outstanding, t; cbn [trans_l set_trans_l]; lia).
  destruct Hs as (Hout & _).
  destruct P as (_ & _ & [(_ & _ & Pst) | [(Ptl & Pur) | (_ & _ & _ & Prun)]]).
  - specialize (Pst Hst). contradiction.
  - unfold lost. rewrite Pur. change (urb_remain t) with (urb_remain s).
    assert (outstanding s' = outstanding t)
      by (unfold outstanding; now rewrite Ptl).
    lia.
  - change (running t) with (running s) in Prun. congruence.
Qed.

(** ** Capture calls *)

Lemma cap_imgn_unfold (width height depth : nat) (n timeout_ms : Z)
    (tr : list poll) :
  cap_imgn width height depth n timeout_ms tr =
    match run_loop timeout_ms tr (run_start (CapImgN_init width height depth n)) with
    | (s1, LoopDone) => (set_running false s1, Returned (completions s1))
    | (s1, LoopRaise e) => (set_running false s1, Raised e)
    | (s1, LoopPending) => (s1, Pending)
    end.
Proof.
  unfold cap_imgn, run. fold (run_start (CapImgN_init width height depth n)).
  destruct (run_loop _ _ _) as [s1 [|e|]]; reflexivity.
Qed.

(** Every state a capture call goes through between two callbacks keeps
    the pool in order. *)
Lemma cap_imgn_pool_ok (width height depth : nat) (n timeout_ms : Z)
    (tr : list poll) :
  let s := fst (cap_imgn width height depth n timeout_ms tr) in
  pool_ok s /\ urb_max s = 31.
Proof.
  cbv zeta. rewrite cap_imgn_unfold.
  destruct (run_start_pool_ok width height depth n) as [H0 Hmax].
  destruct (run_loop_pool_ok timeout_ms tr _ H0) as (H1 & _ & H3 & _).
  rewrite Hmax in H3.
  destruct (run_loop _ _ _) as [s1 [|e|]]; cbn [fst] in *; split; assumption.
Qed.

(** C8 (as the code has it): at every point of a capture call between two
    callbacks, the reads outstanding are at most the reads counted
    ([urb_remain]), which are at most 31; while waiting for BEGIN at most 30
    reads are outstanding, and at most one unless a counted read has already
    completed without being submitted again; and a callback submits its
    transfer again while waiting for BEGIN only when that leaves a single
    read outstanding. *)
Theorem outstanding_reads_bounded (width height depth : nat) (n timeout_ms : Z)
    (tr : list poll) :
  let s := fst (cap_imgn width height depth n timeout_ms tr) in
  0 <= outstanding s <= urb_remain s /\
  urb_remain s <= 31 /\
  (state s = MSG_END ->
   outstanding s <= 30 /\ (outstanding s <= 1 \/ outstanding s < urb_remain s)) /\
  (forall i buff,
     trans_l s !! i = Some true ->
     let s' :=
       fst (async_cb i buff (set_trans_l (<[i := false]> (trans_l s)) s)) in
     state s' = MSG_END -> trans_l s' !! i = Some true ->
     outstanding s' <= 1).
Proof.
  destruct (cap_imgn_pool_ok width height depth n timeout_ms tr) as [Hs Hmax].
  cbv zeta in *. set (s := fst (cap_imgn _ _ _ _ _ _)) in *.
  pose proof Hs as (Hout & Hur & Hend).
  split; [exact Hout|]. split; [lia|]. split.
  - intros E. specialize (Hend E). lia.
  - intros i buff Hi Hst Hsub.
    destruct (deliver_pool_ok i buff s Hs Hi) as ((Hout' & _ & _) & _).
    set (t := set_trans_l (<[i := false]> (trans_l s)) s) in *.
    pose proof (async_cb_pool i buff t) as P. cbv zeta in P.
    assert (Hfalse : trans_l t !! i = Some false).
    { unfold t. cbn [trans_l set_trans_l]. apply list_lookup_insert_eq.
      now apply lookup_lt_Some in Hi. }
    destruct P as (_ & _ & [(_ & Pur & Pst) | [(Ptl & _) | (Ptl & _)]]).
    + specialize (Pst Hst). change (urb_remain t) with (urb_remain s) in *. lia.
    + rewrite Ptl in Hsub. congruence.
    + rewrite Ptl in Hsub. congruence.
Qed.

(** C8 (the statement of the specification fails): when the END buffer of a
    frame has been handled with the pipeline filled, the state machine
    waits for BEGIN with 30 reads outstanding. *)
Lemma thirty_reads_while_waiting :
  let s := fst (cap_imgn 1 1 2 1 2500 (take 2 script_one_frame)) in
  state s = MSG_END /\ outstanding s = 30 /\ ~ reads_throttled s.
Proof.
  cbv zeta. split; [reflexivity|]. split; [reflexivity|].
  intros [_ H]. specialize (H eq_refl). vm_compute in H. now apply H.
Qed.

(** C4 (as the code has it): when a turn of the loop finds the deadline
    reached while reads are still counted, whatever the number of frames
    accepted so far, the call fails with the timeout exception at once:
    [running] is set to false, nothing else changes, and at least one read
    is still counted: the reads are not drained. *)
Theorem capture_timeout_not_drained (width height depth : nat)
    (n timeout_ms : Z) (pre : list poll) (p : poll) (post : list poll)
    (s1 : CapImgN) :
  cap_imgn width height depth n timeout_ms pre = (s1, Pending) ->
  timeout_ms <= secs p * 1000 ->
  let r := cap_imgn width height depth n timeout_ms (pre ++ p :: post) in
  snd r = Raised (TimeoutAfter (secs p * 1000)) /\
  running (fst r) = false /\
  1 <= urb_remain (fst r) /\
  urb_remain (fst r) = urb_remain s1 /\
  trans_l (fst r) = trans_l s1 /\
  completions (fst r) = completions s1.
Proof.
  intros Hpre Hdead.
  pose proof (cap_imgn_pool_ok width height depth n timeout_ms pre) as [Hs _].
  cbv zeta in Hs. rewrite Hpre in Hs. cbn [fst] in Hs.
  rewrite cap_imgn_unfold in Hpre. cbv zeta. rewrite cap_imgn_unfold, run_loop_app.
  destruct (run_loop timeout_ms pre _) as [s0 [|e|]] eqn:E; try discriminate.
  injection Hpre as ->.
  apply run_loop_pending in E.
  cbn [run_loop]. destruct (Z.eqb_spec (urb_remain s1) 0) as [|_]; [contradiction|].
  destruct (Z.leb_spec timeout_ms (secs p * 1000)) as [_|]; [|lia].
  cbn [fst snd]. destruct Hs as ((H0 & Hle) & _).
  repeat split. cbn. lia.
Qed.

Lemma capture_timeout_not_drained_witness :
  let r := cap_imgn 1 1 2 1 2500 ([mk_poll 0 []] ++ mk_poll 3 [] :: []) in
  snd r = Raised (TimeoutAfter 3000) /\
  running (fst r) = false /\
  1 <= urb_remain (fst r) /\
  urb_remain (fst r) = 1 /\
  trans_l (fst r) = [true] /\
  completions (fst r) = [].
Proof.
  apply (capture_timeout_not_drained 1 1 2 1 2500 [mk_poll 0 []]
           (mk_poll 3 []) [] (run_start (CapImgN_init 1 1 2 1)));
    [reflexivity | cbn; lia].
Defined.

(** C4 (the statement of the specification fails): a call that is given no
    frame at all fails with the timeout while its one read is still counted
    and outstanding. *)
Lemma timeout_with_read_outstanding :
  ~ timeout_after_drain 1 1 2 1 2500 [mk_poll 3 []].
Proof.
  intros H. destruct (H _ _ eq_refl) as [H1 _]. vm_compute in H1. discriminate H1.
Qed.

(** C6 (the code at its input): one frame with status OK, delivered well
    before the deadline to a call that asks for one frame.  The frame is
    accepted, but the read that returned the END buffer is neither submitted
    again nor taken off the counter: when the other 30 reads have completed,
    [urb_remain] is 1 with no read outstanding, the loop cannot end, and the
    call fails with the timeout exception instead of returning its
    completion. *)
Theorem one_frame_capture_times_out :
  let r := cap_imgn 1 1 2 1 2500 script_one_frame in
  snd r = Raised (TimeoutAfter 3000) /\
  completions (fst r) = [(7, [x00; x00], 0)] /\
  urb_remain (fst r) = 1 /\
  outstanding (fst r) = 0.
Proof.
  cbv zeta. repeat split; vm_compute; reflexivity.
Qed.

(** ** Scripted sessions *)

(** BEGIN, an all-zero frame and END with status 3 and counter 7, all seen
    by the single read of the session: one completion, with counter 7 and
    an all-zero image, and the call returns with no read counted. *)
Example single_read_frame_ok :
  let r := cap_imgn 1 1 2 1 2500 (script_single_read STATUS_OK) in
  snd r = Returned [(7, [x00; x00], 0)] /\
  urb_remain (fst r) = 0 /\ outstanding (fst r) = 0.
Proof. cbv zeta. repeat split; vm_compute; reflexivity. Qed.

(** The same with status 7: no completion and no exception; the session
    goes on waiting for a frame. *)
Example single_read_frame_nok :
  let r := cap_imgn 1 1 2 1 2500 (script_single_read STATUS_NOK) in
  snd r = Pending /\ completions (fst r) = [] /\ running (fst r) = true.
Proof. cbv zeta. repeat split; vm_compute; reflexivity. Qed.

(** * Further properties of the capture engine *)

Lemma le_value_two_bytes (b0 b1 : byte) :
  le_value [b0; b1] = Z_of_byte b0 + 256 * Z_of_byte b1 /\
  0 <= le_value [b0; b1] < 65536.
Proof.
  cbn [le_value]. pose proof (Z_of_byte_range b0). pose proof (Z_of_byte_range b1).
  split; lia.
Qed.

Lemma is_sync_two_bytes (b0 b1 : byte) (rest : bytes) :
  is_sync (b0 :: b1 :: rest)
  = Ok (if 0x4000 <=? le_value [b0; b1] then le_value [b0; b1] else 0).
Proof.
  apply is_sync_leading_word. reflexivity.
Qed.

(** X1: [is_sync] classifies every buffer by its leading little-endian word:
    0 for an empty buffer and for a word below 0x4000, the word itself from
    0x4000 on; a buffer of a single byte cannot be unpacked and raises
    [struct.error].  A result is 0 or lies between 0x4000 and 0xFFFF. *)
Theorem is_sync_classifies (buff : bytes) :
  match buff with
  | [] => is_sync buff = Ok 0
  | [_] => is_sync buff = Raise StructError
  | b0 :: b1 :: _ =>
      is_sync buff
      = Ok (if 0x4000 <=? le_value [b0; b1] then le_value [b0; b1] else 0)
  end /\
  forall v, is_sync buff = Ok v -> v = 0 \/ 0x4000 <= v <= 0xFFFF.
Proof.
  destruct buff as [|b0 [|b1 rest]].
  - split; [reflexivity|]. intros v [= <-]. now left.
  - split; [reflexivity|]. intros v [=].
  - rewrite is_sync_two_bytes. split; [reflexivity|].
    pose proof (le_value_two_bytes b0 b1) as [_ Hr].
    set (w := le_value [b0; b1]) in *. clearbody w.
    intros v [= <-]. destruct (Z.leb_spec 0x4000 w); lia.
Qed.

(** X2: A buffer of a single byte raises [struct.error] in [handle_buff]
    whatever the state, in a frame too, and leaves the object as it is; the
    callback then stops the session. *)
Theorem handle_buff_one_byte (s : CapImgN) (b0 : byte) (i : nat) :
  handle_buff [b0] s = (s, Raise StructError) /\
  (running s = true ->
   async_cb i [b0] s = (set_running false s, Raise StructError)).
Proof.
  assert (E : handle_buff [b0] s = (s, Raise StructError)) by reflexivity.
  split; [exact E|]. intros R.
  unfold async_cb, try_except, bind, gets. rewrite R, E. reflexivity.
Qed.

(** X3: While waiting for BEGIN, a buffer that is empty, that starts with a
    word below 0x4000 or that starts with the END marker is passed over:
    [handle_buff] returns and the object is unchanged. *)
Theorem handle_buff_waiting_ignores (s : CapImgN) (buff : bytes) :
  state s = MSG_END ->
  is_sync buff = Ok 0 \/ is_sync buff = Ok MSG_END ->
  handle_buff buff s = (s, Ok tt).
Proof.
  intros Hst [H|H]; unfold handle_buff, bind, lift, gets; rewrite H;
    cbv beta iota; [change (0 =? MSG_WTF) with false
                   |change (MSG_END =? MSG_WTF) with false];
    cbv beta iota; rewrite Hst; reflexivity.
Qed.

Lemma handle_buff_waiting_ignores_witness :
  handle_buff [xff; x3f; x01] (CapImgN_init 1032 1032 2 1)
  = (CapImgN_init 1032 1032 2 1, Ok tt).
Proof.
  apply (handle_buff_waiting_ignores (CapImgN_init 1032 1032 2 1) [xff; x3f; x01]);
    [reflexivity | left; reflexivity].
Defined.

(** The BEGIN buffer while waiting for BEGIN. *)
Lemma handle_buff_begin (s : CapImgN) (buff : bytes) :
  state s = MSG_END ->
  is_sync buff = Ok MSG_BEGIN ->
  handle_buff buff s
  = (set_packets 0 (set_rawbuff (Some []) (set_state MSG_BEGIN s)), Ok tt).
Proof.
  intros Hst H. unfold handle_buff, bind, lift, gets. rewrite H.
  change (MSG_BEGIN =? MSG_WTF) with false. cbv beta iota. rewrite Hst.
  reflexivity.
Qed.

(** A buffer of frame data while in a frame. *)
Lemma handle_buff_data (s : CapImgN) (rb buff : bytes) :
  state s = MSG_BEGIN ->
  rawbuff s = Some rb ->
  is_sync buff = Ok 0 ->
  handle_buff buff s
  = (set_rawbuff (Some (rb ++ buff)) (set_packets (packets s + 1) s), Ok tt).
Proof.
  intros Hst Hrb H. unfold handle_buff, bind, lift, gets, modify. rewrite H.
  change (0 =? MSG_WTF) with false. cbv beta iota. rewrite Hst.
  change (MSG_BEGIN =? MSG_END) with false.
  change (MSG_BEGIN =? MSG_BEGIN) with true. cbn [negb Z.eqb].
  cbn [rawbuff set_packets]. rewrite Hrb. reflexivity.
Qed.

(** The data buffers of a frame, in any number and of any sizes, are
    accumulated in order. *)
Lemma handle_buffs_data (ds : list bytes) (s : CapImgN) (rb : bytes) :
  state s = MSG_BEGIN ->
  rawbuff s = Some rb ->
  Forall (fun d => is_sync d = Ok 0) ds ->
  handle_buffs ds s
  = (set_rawbuff (Some (rb ++ concat ds))
       (set_packets (packets s + Z.of_nat (length ds)) s), Ok tt).
Proof.
  revert s rb. induction ds as [|d ds IH]; intros s rb Hst Hrb Hds.
  - cbn [handle_buffs concat length]. rewrite app_nil_r, Z.add_0_r.
    destruct s; cbn in *; subst; reflexivity.
  - inversion Hds as [|? ? Hd Hds']; subst.
    cbn [handle_buffs]. unfold bind.
    rewrite (handle_buff_data s rb d Hst Hrb Hd).
    rewrite (IH _ (rb ++ d)) by (try assumption; reflexivity).
    cbn [concat length set_rawbuff set_packets packets imgsz n state urb_remain
         rawbuff completions urb_max running imgx_sz trans_l].
    rewrite <- app_assoc. unfold set_rawbuff, set_packets. cbn.
    do 2 f_equal. lia.
Qed.

(** X4: In a frame, a marker other than END and WTF, BEGIN among them, fails
    the assertion of [handle_buff] and leaves the object as it is. *)
Theorem handle_buff_in_frame_marker_fatal (s : CapImgN) (buff : bytes) (w : Z) :
  state s = MSG_BEGIN ->
  is_sync buff = Ok w ->
  w <> 0 -> w <> MSG_END -> w <> MSG_WTF ->
  handle_buff buff s = (s, Raise AssertionError).
Proof.
  intros Hst H H0 HE HW. unfold handle_buff, bind, lift, gets. rewrite H.
  destruct (Z.eqb_spec w MSG_WTF) as [|_]; [contradiction|].
  rewrite Hst. change (MSG_BEGIN =? MSG_END) with false.
  change (MSG_BEGIN =? MSG_BEGIN) with true. cbv beta iota.
  destruct (Z.eqb_spec w 0) as [|_]; [contradiction|]. cbn [negb].
  destruct (Z.eqb_spec w MSG_END) as [|_]; [contradiction|]. reflexivity.
Qed.

Lemma handle_buff_in_frame_marker_fatal_witness :
  handle_buff [x02; x80] in_frame_leftover = (in_frame_leftover, Raise AssertionError).
Proof.
  apply (handle_buff_in_frame_marker_fatal in_frame_leftover [x02; x80] MSG_BEGIN);
    [reflexivity | reflexivity | discriminate | discriminate | discriminate].
Defined.

(** ** One frame, assembled from its buffers *)

Lemma handle_buffs_app (xs ys : list bytes) (s : CapImgN) :
  handle_buffs (xs ++ ys) s =
    match handle_buffs xs s with
    | (s1, Ok _) => handle_buffs ys s1
    | (s1, Raise e) => (s1, Raise e)
    end.
Proof.
  revert s. induction xs as [|x xs IH]; intros s; cbn [app handle_buffs].
  - reflexivity.
  - unfold bind. destruct (handle_buff x s) as [s1 [[]|e]]; [apply IH|reflexivity].
Qed.

(** X5: A frame is assembled from its buffers whatever the way the transport
    cuts the data: from the state waiting for BEGIN, the BEGIN buffer, data
    buffers that hold at least [imgsz + 2] bytes between them, and the END
    buffer with status OK append one completion, made of the counter of the
    END buffer, the first [imgsz] bytes of the data and the little-endian
    value of the two bytes that follow; the machine waits for BEGIN again,
    without a buffer, and has counted the data buffers. *)
Theorem frame_assembled_from_chunks (s : CapImgN) (begin : bytes)
    (ds : list bytes) (counter : Z) (pad : bytes) :
  state s = MSG_END ->
  imgx_sz s = (imgsz s + 2)%nat ->
  is_sync begin = Ok MSG_BEGIN ->
  Forall (fun d => is_sync d = Ok 0) ds ->
  (imgsz s + 2 <= length (concat ds))%nat ->
  0 <= counter < 65536 ->
  let r := handle_buffs (begin :: ds ++ [end_buffer STATUS_OK counter pad]) s in
  snd r = Ok tt /\
  completions (fst r) =
    completions s ++
      [(counter, take (imgsz s) (concat ds),
        le_value (take 2 (drop (imgsz s) (concat ds))))] /\
  state (fst r) = MSG_END /\ rawbuff (fst r) = None /\
  packets (fst r) = Z.of_nat (length ds).
Proof.
  intros Hst Hx Hb Hds HL Hc.
  set (s1 := set_packets 0 (set_rawbuff (Some []) (set_state MSG_BEGIN s))).
  set (s2 := set_rawbuff (Some ([] ++ concat ds))
               (set_packets (packets s1 + Z.of_nat (length ds)) s1)).
  assert (Hs : 0 <= STATUS_OK < 65536) by (unfold STATUS_OK; lia).
  pose proof (handle_buff_end_complete s2 (concat ds) STATUS_OK counter pad
                eq_refl eq_refl Hx HL Hs Hc) as Hhb.
  pose proof (process_end_complete s2 (concat ds) STATUS_OK counter pad
                eq_refl Hx HL Hs Hc) as Hpe.
  cbv zeta in Hhb, Hpe. fold (end_buffer STATUS_OK counter pad) in Hhb, Hpe.
  change (STATUS_OK =? STATUS_NOK) with false in Hpe.
  change (STATUS_OK =? STATUS_OK) with true in Hpe. cbv iota in Hpe.
  rewrite Hpe in Hhb.
  assert (E : handle_buffs (begin :: ds ++ [end_buffer STATUS_OK counter pad]) s
              = (set_state MSG_END
                   (set_rawbuff None
                      (set_completions
                         (completions s2 ++
                            [(counter, take (imgsz s2) (concat ds),
                              le_value (take 2 (drop (imgsz s2) (concat ds))))])
                         (set_rawbuff (Some (drop (imgsz s2 + 2) (concat ds))) s2))),
                 Ok tt)).
  { cbn [handle_buffs]. unfold bind at 1.
    rewrite (handle_buff_begin s begin Hst Hb). fold s1.
    rewrite handle_buffs_app.
    rewrite (handle_buffs_data ds s1 [] eq_refl eq_refl Hds). fold s2.
    cbn [handle_buffs]. unfold bind at 1. rewrite Hhb. reflexivity. }
  cbv zeta. rewrite E. cbn. repeat split.
Qed.

Lemma frame_assembled_from_chunks_witness :
  let r := handle_buffs ([x02; x80] :: [[x00; x00]; []; [x05; x00; x09]]
                           ++ [end_buffer STATUS_OK 7 []])
             (CapImgN_init 1 1 2 1) in
  snd r = Ok tt /\
  completions (fst r) = [] ++ [(7, [x00; x00], 5)] /\
  state (fst r) = MSG_END /\ rawbuff (fst r) = None /\
  packets (fst r) = 3.
Proof.
  apply (frame_assembled_from_chunks (CapImgN_init 1 1 2 1) [x02; x80]
           [[x00; x00]; []; [x05; x00; x09]] 7 []);
    [reflexivity | reflexivity | reflexivity | | simpl; lia | lia].
  repeat constructor.
Defined.

(** ** What the state machine keeps *)

Lemma struct_unpack_raises (o : byteorder) (cs : list fmtcode) (buff : bytes)
    (e : exn) :
  struct_unpack o cs buff = Raise e -> e = StructError.
Proof.
  unfold struct_unpack. destruct (Nat.eqb _ _); [discriminate|]. now intros [= <-].
Qed.

Lemma unpack1_raises (o : byteorder) (c : fmtcode) (buff : bytes) (e : exn) :
  unpack1 o c buff = Raise e -> e = StructError.
Proof.
  unfold unpack1, struct_unpack. destruct (Nat.eqb _ _); cbn; [discriminate|].
  now intros [= <-].
Qed.

Lemma unpack1_value (o : byteorder) (c : fmtcode) (buff : bytes) (v : Z) :
  unpack1 o c buff = Ok v ->
  length buff = fmt_size c /\ v = int_value o buff.
Proof.
  unfold unpack1, struct_unpack. cbn [calcsize foldr].
  destruct (Nat.eqb_spec (length buff) (fmt_size c + 0)) as [E|E]; [|discriminate].
  cbn [rbind unpack_items]. rewrite firstn_all2 by lia.
  intros [= <-]. split; [lia|reflexivity].
Qed.

Lemma is_sync_raises (buff : bytes) (e : exn) :
  is_sync buff = Raise e -> e = StructError.
Proof.
  unfold is_sync. destruct (Nat.eqb _ _); [discriminate|].
  destruct (unpack16_le (slice buff 0 2)) as [w|e0] eqn:E; cbn [rbind].
  - destruct (0x4000 <=? w); discriminate.
  - apply unpack1_raises in E. now intros [= <-].
Qed.

Lemma le_value_bound (bs : bytes) :
  0 <= le_value bs < 256 ^ Z.of_nat (length bs).
Proof.
  induction bs as [|b bs IH]; cbn [le_value length].
  - cbn. lia.
  - rewrite Nat2Z.inj_succ, Z.pow_succ_r by lia.
    pose proof (Z_of_byte_range b). lia.
Qed.

Ltac machine_cbn :=
  cbv beta iota;
  cbn [fst snd state rawbuff completions packets imgsz imgx_sz n urb_remain
       urb_max running trans_l set_state set_rawbuff set_completions
       set_packets set_running set_urb_remain set_trans_l].

(** A step through the code of a method: the next test or call whose
    result decides how the method goes on is split in its cases. *)
Ltac machine_case :=
  match goal with
  | |- context [match ?x with _ => _ end] =>
      lazymatch x with
      | context [match _ with _ => _ end] => fail
      | _ => destruct x eqn:?
      end
  end.

Ltac machine_unfold :=
  unfold handle_buff, process_end, bind, lift, gets, modify, assert, ret, raise.

Ltac machine_exn_leaf :=
  match goal with
  | H : is_sync _ = Raise _ |- _ => apply is_sync_raises in H
  | H : unpack1 _ _ _ = Raise _ |- _ => apply unpack1_raises in H
  | H : unpack16_le _ = Raise _ |- _ => apply unpack1_raises in H
  | H : struct_unpack _ _ _ = Raise _ |- _ => apply struct_unpack_raises in H
  end.

(** Whatever the object, [handle_buff] raises [struct.error], an assertion
    error, or the errors of a missing buffer, and nothing else. *)
Lemma handle_buff_raises_only (buff : bytes) :
  raises_only machine_exn (handle_buff buff).
Proof.
  intros s e. machine_unfold. unfold machine_exn.
  repeat (machine_cbn; machine_case); machine_cbn;
    intros [= <-]; try machine_exn_leaf; subst; auto.
Qed.

Ltac machine_absurd :=
  match goal with
  | H : (?a =? ?a) = false |- _ => rewrite Z.eqb_refl in H; discriminate H
  | H : (MSG_END =? MSG_BEGIN) = true |- _ => discriminate H
  | H : (MSG_BEGIN =? MSG_END) = true |- _ => discriminate H
  | H : Some _ = None |- _ => discriminate H
  | H : None = Some _ |- _ => discriminate H
  end.

(** One call of [handle_buff] from an object whose state and buffer are in
    step. *)
Lemma handle_buff_sm_ok_step (buff : bytes) (s : CapImgN) :
  sm_ok s ->
  sm_ok (fst (handle_buff buff s)) /\
  forall e, snd (handle_buff buff s) = Raise e ->
            e = StructError \/ e = AssertionError.
Proof.
  unfold sm_ok.
  intros [[Hst Hrb]|[Hst [rb Hrb]]]; machine_unfold;
    repeat (machine_cbn; machine_case); machine_cbn;
    rewrite ?Hst, ?Hrb in *; try machine_absurd;
    (split;
     [ first [ left; split; reflexivity
             | right; split; [reflexivity | eexists; reflexivity] ]
     | intros ? [= <-]; try machine_exn_leaf; subst; auto ]).
Qed.

(** X6: The state and the accumulation buffer stay in step through every call
    of [handle_buff], raised or not; and from such an object [handle_buff]
    never fails for a missing buffer: it raises [struct.error] or an
    assertion error only. *)
Theorem handle_buff_keeps_sm_ok (buff : bytes) (s : CapImgN) :
  sm_ok s ->
  sm_ok (fst (handle_buff buff s)) /\
  forall e, snd (handle_buff buff s) = Raise e ->
            e = StructError \/ e = AssertionError.
Proof.
  exact (handle_buff_sm_ok_step buff s).
Qed.

Lemma handle_buff_keeps_sm_ok_witness :
  sm_ok (fst (handle_buff (end_buffer 9 7 []) in_frame_leftover)) /\
  forall e, snd (handle_buff (end_buffer 9 7 []) in_frame_leftover) = Raise e ->
            e = StructError \/ e = AssertionError.
Proof.
  apply (handle_buff_keeps_sm_ok (end_buffer 9 7 []) in_frame_leftover).
  right. split; [reflexivity | eexists; reflexivity].
Defined.

Lemma unpack_H_range (o : byteorder) (buff : bytes) (v : Z) :
  unpack1 o fmt_H buff = Ok v -> 0 <= v < 65536.
Proof.
  intros H. apply unpack1_value in H as [HL ->]. cbn [fmt_size] in HL.
  destruct o; cbn [int_value].
  - pose proof (le_value_bound (rev buff)) as B. rewrite length_rev, HL in B.
    exact B.
  - pose proof (le_value_bound buff) as B. rewrite HL in B. exact B.
Qed.

Lemma unpack_HH_range (buff : bytes) (x y : Z) :
  struct_unpack LittleEndian [fmt_H; fmt_H] buff = Ok [x; y] ->
  0 <= x < 65536 /\ 0 <= y < 65536.
Proof.
  unfold struct_unpack. cbn [calcsize foldr fmt_size Nat.add].
  destruct (Nat.eqb_spec (length buff) 4) as [HL|]; [|discriminate].
  cbn [unpack_items int_value fmt_size]. intros [= <- <-].
  pose proof (le_value_bound (take 2 buff)) as B1.
  pose proof (le_value_bound (take 2 (drop 2 buff))) as B2.
  rewrite length_take in B1, B2. rewrite length_drop, HL in B2. rewrite HL in B1.
  split; [exact B1 | exact B2].
Qed.

(** What one call of [handle_buff] does to the completions. *)
Lemma handle_buff_completions_step (buff : bytes) (s : CapImgN) :
  let s' := fst (handle_buff buff s) in
  completions s' = completions s \/
  exists c,
    completions s' = completions s ++ [c] /\
    completion_ok (imgsz s) c /\
    snd (handle_buff buff s) = Ok tt /\
    state s = MSG_BEGIN /\ state s' = MSG_END.
Proof.
  cbv zeta. machine_unfold.
  repeat (machine_cbn; machine_case); machine_cbn;
    try (left; reflexivity).
  right. eexists. split; [reflexivity|].
  repeat match goal with
         | H : (_ =? _) = true |- _ => apply Z.eqb_eq in H
         | H : (_ =? _)%nat = true |- _ => apply Nat.eqb_eq in H
         | H : unpack1 _ fmt_H _ = Ok _ |- _ => apply unpack_H_range in H
         | H : struct_unpack _ _ _ = Ok [_; _] |- _ => apply unpack_HH_range in H
         end.
  unfold completion_ok. cbn [fst snd]. intuition.
Qed.

(** X7: One call of [handle_buff] appends at most one completion, and only
    when it returns from a frame to the state waiting for BEGIN; the
    completion it appends has a raw image of exactly [imgsz] bytes and a
    counter and a footer value of 16 bits.  It never removes or changes a
    completion. *)
Theorem handle_buff_appends_one (buff : bytes) (s : CapImgN) :
  let s' := fst (handle_buff buff s) in
  completions s' = completions s \/
  exists c,
    completions s' = completions s ++ [c] /\
    completion_ok (imgsz s) c /\
    snd (handle_buff buff s) = Ok tt /\
    state s = MSG_BEGIN /\ state s' = MSG_END.
Proof.
  exact (handle_buff_completions_step buff s).
Qed.

(** ** Callbacks *)

(** A callback of a session that is not running any more does not look at
    the buffer read: one is taken off [urb_remain] and that is all. *)
Lemma async_cb_not_running (i : nat) (buff : bytes) (s : CapImgN) :
  running s = false ->
  async_cb i buff s = (set_urb_remain (urb_remain s - 1) s, Ok tt).
Proof.
  intros R. unfold async_cb, try_except, bind, gets, modify, ret.
  rewrite R. cbn. rewrite R. reflexivity.
Qed.

(** X8: Once a session has stopped, what the transport still delivers is
    discarded: whatever the buffers hold and however many are delivered,
    [handleEventsTimeout] raises nothing, the state machine, the
    accumulation buffer and the completions stay as they are, the session
    stays stopped, no read is submitted again and [urb_remain] does not
    grow. *)
Theorem stopped_session_discards (ds : list (nat * bytes)) (s : CapImgN) :
  running s = false ->
  let r := handleEventsTimeout ds s in
  snd r = Ok tt /\ same_machine s (fst r) /\ running (fst r) = false /\
  urb_remain (fst r) <= urb_remain s /\
  outstanding (fst r) <= outstanding s.
Proof.
  revert s. induction ds as [|[i buff] ds IH]; intros s R; cbv zeta.
  - cbn. unfold same_machine. repeat split; try reflexivity; try assumption; lia.
  - rewrite handleEventsTimeout_cons.
    destruct (trans_l s !! i) as [[|]|] eqn:Hi; try (apply IH; exact R).
    rewrite async_cb_not_running by exact R.
    set (s1 := set_urb_remain _ _).
    destruct (IH s1 R) as (H1 & H2 & H3 & H4 & H5).
    split; [exact H1|]. split; [exact H2|]. split; [exact H3|].
    change (urb_remain s1) with (urb_remain s - 1) in H4.
    split; [lia|].
    pose proof (count_insert_false (trans_l s) i Hi) as Hc.
    assert (outstanding s1 + 1 = outstanding s)
      by (unfold outstanding, s1; cbn [trans_l set_trans_l set_urb_remain]; lia).
    lia.
Qed.

Lemma stopped_session_discards_witness :
  let s := set_running false (run_start in_frame_leftover) in
  let r := handleEventsTimeout [(0%nat, [x02; x80]); (1%nat, [x01])] s in
  snd r = Ok tt /\ same_machine s (fst r) /\ running (fst r) = false /\
  urb_remain (fst r) <= urb_remain s /\
  outstanding (fst r) <= outstanding s.
Proof.
  apply (stopped_session_discards [(0%nat, [x02; x80]); (1%nat, [x01])]
           (set_running false (run_start in_frame_leftover))).
  reflexivity.
Defined.

(** A callback of a running session: [handle_buff], then the transfer is
    submitted again or not; an exception stops the session. *)
Lemma async_cb_running (i : nat) (buff : bytes) (s : CapImgN) :
  running s = true ->
  async_cb i buff s =
    match handle_buff buff s with
    | (s1, Ok _) =>
        (if (state s1 =? MSG_END) && (urb_remain s1 =? 1)
         then set_trans_l (<[i := true]> (trans_l s1)) s1
         else if state s1 =? MSG_BEGIN
              then set_trans_l (<[i := true]> (trans_l s1)) s1
              else s1, Ok tt)
    | (s1, Raise e) => (set_running false s1, Raise e)
    end.
Proof.
  intros R. unfold async_cb, try_except, bind, gets. rewrite R.
  pose proof (handle_buff_same_pool buff s) as (_ & _ & _ & P4 & _).
  destruct (handle_buff buff s) as [s1 [[]|e]]; cbn [fst] in *; [|reflexivity].
  rewrite P4, R.
  destruct ((state s1 =? MSG_END) && (urb_remain s1 =? 1)); [reflexivity|].
  destruct (state s1 =? MSG_BEGIN); reflexivity.
Qed.

(** ** Invariants of the state machine through a capture call *)

Section RunInvariant.
Variable P : CapImgN -> Prop.
Variable Q : exn -> Prop.
Hypothesis P_machine : forall s s', same_machine s s' -> P s -> P s'.
Hypothesis P_handle : forall buff s, P s -> P (fst (handle_buff buff s)).
Hypothesis Q_handle :
  forall buff s e, P s -> snd (handle_buff buff s) = Raise e -> Q e.

Lemma async_cb_invariant (i : nat) (buff : bytes) (s : CapImgN) :
  P s ->
  P (fst (async_cb i buff s)) /\
  forall e, snd (async_cb i buff s) = Raise e -> Q e.
Proof.
  intros Hs. destruct (running s) eqn:R.
  - rewrite (async_cb_running i buff s R).
    pose proof (P_handle buff s Hs) as H1.
    pose proof (Q_handle buff s) as H2.
    destruct (handle_buff buff s) as [s1 [[]|e]]; cbn [fst snd] in *.
    + split; [|discriminate].
      destruct ((state s1 =? MSG_END) && (urb_remain s1 =? 1));
        [|destruct (state s1 =? MSG_BEGIN)];
        try exact H1; (eapply P_machine; [|exact H1]); now repeat split.
    + split; [|intros e0 [= <-]; now apply H2].
      eapply P_machine; [|exact H1]. now repeat split.
  - rewrite (async_cb_not_running i buff s R). cbn [fst snd].
    split; [|discriminate]. eapply P_machine; [|exact Hs]. now repeat split.
Qed.

Lemma handleEventsTimeout_invariant (ds : list (nat * bytes)) (s : CapImgN) :
  P s ->
  P (fst (handleEventsTimeout ds s)) /\
  forall e, snd (handleEventsTimeout ds s) = Raise e -> Q e.
Proof.
  revert s. induction ds as [|[i buff] ds IH]; intros s Hs.
  - cbn. split; [exact Hs|discriminate].
  - rewrite handleEventsTimeout_cons.
    destruct (trans_l s !! i) as [[|]|]; try (apply IH; exact Hs).
    assert (Ht : P (set_trans_l (<[i := false]> (trans_l s)) s))
      by (eapply P_machine; [|exact Hs]; now repeat split).
    destruct (async_cb_invariant i buff _ Ht) as [H1 H2].
    destruct (async_cb i buff _) as [s1 [[]|e]]; cbn [fst snd] in *.
    + apply IH. exact H1.
    + split; [exact H1|]. intros e0 [= <-]. now apply H2.
Qed.

Lemma alloc_urb_machine (k : nat) (s : CapImgN) :
  same_machine s (Nat.iter k alloc_one s).
Proof.
  induction k as [|k IH]; [now repeat split|].
  rewrite Nat.iter_succ. destruct IH as (I1 & I2 & I3 & I4 & I5 & I6).
  repeat split; assumption.
Qed.

Lemma run_loop_invariant (timeout_ms : Z) (tr : list poll) (s : CapImgN) :
  P s ->
  P (fst (run_loop timeout_ms tr s)) /\
  forall e, snd (run_loop timeout_ms tr s) = LoopRaise e ->
    Q e \/
    exists p, In p tr /\ e = TimeoutAfter (secs p * 1000) /\
              timeout_ms <= secs p * 1000.
Proof.
  revert s. induction tr as [|p tr IH]; intros s Hs; cbn [run_loop].
  - destruct (urb_remain s =? 0); cbn; (split; [exact Hs|discriminate]).
  - destruct (urb_remain s =? 0); [cbn; split; [exact Hs|discriminate]|].
    set (s1 := set_running _ s).
    assert (H1 : P s1) by (eapply P_machine; [|exact Hs]; now repeat split).
    destruct (Z.leb_spec timeout_ms (secs p * 1000)) as [Hd|Hd].
    + cbn [fst snd]. split; [exact H1|]. intros e [= <-]. right.
      exists p. split; [now left|]. now split.
    + assert (H2 : P (refill s1)).
      { unfold refill. destruct (running s1 && (state s1 =? MSG_BEGIN));
          [|exact H1].
        eapply P_machine; [apply alloc_urb_machine|exact H1]. }
      destruct (handleEventsTimeout_invariant (deliveries p) _ H2) as [E1 E2].
      destruct (handleEventsTimeout (deliveries p) (refill s1)) as [s2 [[]|e]];
        cbn [fst snd] in *.
      * destruct (IH s2 E1) as [I1 I2]. split; [exact I1|].
        intros e He. destruct (I2 e He) as [|(p' & Hin & Hrest)]; [now left|].
        right. exists p'. split; [now right|exact Hrest].
      * split; [exact E1|]. intros e0 [= <-]. left. now apply E2.
Qed.

Lemma cap_imgn_invariant (width height depth : nat) (n timeout_ms : Z)
    (tr : list poll) :
  P (CapImgN_init width height depth n) ->
  P (fst (cap_imgn width height depth n timeout_ms tr)) /\
  forall e, snd (cap_imgn width height depth n timeout_ms tr) = Raised e ->
    Q e \/
    exists p, In p tr /\ e = TimeoutAfter (secs p * 1000) /\
              timeout_ms <= secs p * 1000.
Proof.
  intros H0. rewrite cap_imgn_unfold.
  assert (Hs : P (run_start (CapImgN_init width height depth n))).
  { eapply P_machine; [|exact H0]. unfold run_start, alloc_urb.
    eapply (alloc_urb_machine _ (set_urb_remain 0 (set_trans_l [] _))). }
  destruct (run_loop_invariant timeout_ms tr _ Hs) as [H1 H2].
  destruct (run_loop _ _ _) as [s1 [|e|]]; cbn [fst snd] in *.
  - split; [|discriminate]. eapply P_machine; [|exact H1]. now repeat split.
  - split; [|intros e0 [= <-]; now apply H2].
    eapply P_machine; [|exact H1]. now repeat split.
  - split; [exact H1|discriminate].
Qed.

End RunInvariant.

(** ** What a capture call keeps and what it can raise *)


(** X10: Every completion a capture call collects, at every point of the call
    and whatever the transport delivers, holds a raw image of exactly
    [width * height * depth] bytes and a counter and a footer value of 16
    bits; the completions a returning call yields are these. *)
Theorem capture_completions_well_formed (width height depth : nat)
    (n timeout_ms : Z) (tr : list poll) :
  let r := cap_imgn width height depth n timeout_ms tr in
  Forall (completion_ok (width * height * depth)) (completions (fst r)) /\
  forall cs, snd r = Returned cs -> cs = completions (fst r).
Proof.
  cbv zeta. split.
  - destruct (cap_imgn_invariant
                (fun s => imgsz s = (width * height * depth)%nat /\
                          Forall (completion_ok (imgsz s)) (completions s))
                (fun _ => True))
      with (width := width) (height := height) (depth := depth) (n := n)
           (timeout_ms := timeout_ms) (tr := tr) as [[H1 H2] _].
    + intros s s' (_ & _ & E3 & _ & E5 & _). now rewrite E3, E5.
    + intros buff s [Hsz Hcs].
      pose proof (handle_buff_same_pool buff s) as _.
      pose proof (handle_buff_completions_step buff s) as Happ. cbv zeta in Happ.
      assert (Hi : imgsz (fst (handle_buff buff s)) = imgsz s).
      { clear. machine_unfold.
        repeat (machine_cbn; machine_case); machine_cbn; reflexivity. }
      rewrite Hi. split; [exact Hsz|].
      destruct Happ as [->|(c & -> & Hc & _)]; [exact Hcs|].
      apply Forall_app. split; [exact Hcs|]. now constructor.
    + trivial.
    + split; [reflexivity|constructor].
    + now rewrite <- H1.
  - intros cs. rewrite cap_imgn_unfold.
    destruct (run_loop _ _ _) as [s1 [|e|]]; cbn [fst snd]; try discriminate.
    now intros [= <-].
Qed.

(** ** The target count *)

Lemma completions_grow_refl (s : CapImgN) : completions_grow s s.
Proof. exists []. now rewrite app_nil_r. Qed.

Lemma completions_grow_trans (s1 s2 s3 : CapImgN) :
  completions_grow s1 s2 -> completions_grow s2 s3 -> completions_grow s1 s3.
Proof.
  intros [cs1 E1] [cs2 E2]. exists (cs1 ++ cs2). now rewrite E2, E1, app_assoc.
Qed.

Lemma completions_grow_same (s s' : CapImgN) :
  completions s' = completions s -> completions_grow s s'.
Proof. intros E. exists []. now rewrite app_nil_r. Qed.

Lemma completions_grow_length (s s' : CapImgN) :
  completions_grow s s' ->
  (length (completions s) <= length (completions s'))%nat.
Proof. intros [cs ->]. rewrite length_app. lia. Qed.

Lemma handle_buff_grows (buff : bytes) (s : CapImgN) :
  completions_grow s (fst (handle_buff buff s)).
Proof.
  destruct (handle_buff_completions_step buff s) as [E|(c & E & _)].
  - now apply completions_grow_same.
  - now exists [c].
Qed.

(** What a callback does to the target count. *)
Lemma async_cb_target (i : nat) (buff : bytes) (s : CapImgN) :
  let s' := fst (async_cb i buff s) in
  completions_grow s s' /\ n s' = n s /\
  (snd (async_cb i buff s) = Ok tt -> target_ok s -> target_ok s').
Proof.
  cbv zeta. destruct (running s) eqn:R.
  - rewrite (async_cb_running i buff s R).
    pose proof (handle_buff_grows buff s) as G.
    pose proof (handle_buff_same_pool buff s) as (_ & P2 & _ & P4 & P5).
    destruct (handle_buff buff s) as [s1 [[]|e]]; cbn [fst snd] in *.
    + assert (T : target_ok s -> target_ok s1).
      { apply completions_grow_length in G. unfold target_ok.
        rewrite P2, P4, P5, R. intros [_ [H|H]]; split; (now left) || lia. }
      destruct ((state s1 =? MSG_END) && (urb_remain s1 =? 1));
        [|destruct (state s1 =? MSG_BEGIN)];
        (split; [exact G|]); (split; [exact P5|]); intros _ Ht; exact (T Ht).
    + split; [exact G|]. split; [exact P5|]. discriminate.
  - rewrite (async_cb_not_running i buff s R). cbn [fst snd].
    split; [now apply completions_grow_same|]. split; [reflexivity|].
    intros _. unfold target_ok. cbn [running n completions urb_remain set_urb_remain].
    rewrite R. intros [[H|H] _]; [discriminate|]. split; now right.
Qed.

Lemma handleEventsTimeout_target (ds : list (nat * bytes)) (s : CapImgN) :
  let s' := fst (handleEventsTimeout ds s) in
  completions_grow s s' /\ n s' = n s /\
  (snd (handleEventsTimeout ds s) = Ok tt -> target_ok s -> target_ok s').
Proof.
  cbv zeta. revert s. induction ds as [|[i buff] ds IH]; intros s.
  - cbn. split; [apply completions_grow_refl|]. now split.
  - rewrite handleEventsTimeout_cons.
    destruct (trans_l s !! i) as [[|]|]; try apply IH.
    set (t := set_trans_l (<[i := false]> (trans_l s)) s).
    destruct (async_cb_target i buff t) as (G & N & T).
    destruct (async_cb i buff t) as [s1 [[]|e]]; cbn [fst snd] in *.
    + destruct (IH s1) as (G' & N' & T').
      split; [exact (completions_grow_trans t _ _ G G')|].
      split; [now rewrite N', N|]. intros Hok Ht. apply T'; [exact Hok|].
      apply T; [reflexivity|exact Ht].
    + split; [exact G|]. split; [exact N|]. discriminate.
Qed.

Lemma refill_target (s : CapImgN) :
  completions (refill s) = completions s /\ n (refill s) = n s /\
  (target_ok s -> target_ok (refill s)).
Proof.
  unfold refill. destruct (running s && (state s =? MSG_BEGIN));
    [|split; [reflexivity|split; [reflexivity|exact id]]].
  unfold alloc_urb.
  destruct (alloc_urb_pool (Z.to_nat (urb_max s - urb_remain s)) s)
    as (_ & I2 & _ & I4 & _ & I6 & I7).
  split; [exact I7|]. split; [exact I4|].
  unfold target_ok. rewrite I2, I4, I6, I7. intros [H1 [H2|H2]]; split; auto.
  left. lia.
Qed.

Lemma run_loop_target (timeout_ms : Z) (tr : list poll) (s : CapImgN) :
  let s' := fst (run_loop timeout_ms tr s) in
  completions_grow s s' /\ n s' = n s /\
  (snd (run_loop timeout_ms tr s) = LoopDone -> target_ok s ->
   n s <= Z.of_nat (length (completions s'))).
Proof.
  cbv zeta. revert s. induction tr as [|p tr IH]; intros s; cbn [run_loop].
  - destruct (Z.eqb_spec (urb_remain s) 0) as [E|E]; cbn [fst snd].
    + split; [apply completions_grow_refl|]. split; [reflexivity|].
      intros _ [_ [H|H]]; lia.
    + split; [apply completions_grow_refl|]. split; [reflexivity|]. discriminate.
  - destruct (Z.eqb_spec (urb_remain s) 0) as [E|E]; cbn [fst snd].
    { split; [apply completions_grow_refl|]. split; [reflexivity|].
      intros _ [_ [H|H]]; lia. }
    set (s1 := set_running _ s).
    assert (T1 : target_ok s -> target_ok s1).
    { unfold target_ok, s1. cbn [running n completions urb_remain set_running].
      intros [[H|H] H']; split; try exact H'; [|now right].
      rewrite H. cbn [andb].
      destruct (Z.ltb_spec (Z.of_nat (length (completions s))) (n s));
        [now left|now right]. }
    destruct (timeout_ms <=? secs p * 1000); cbn [fst snd].
    { split; [now apply completions_grow_same|]. split; [reflexivity|]. discriminate. }
    destruct (refill_target s1) as (Rc & Rn & Rt).
    destruct (handleEventsTimeout_target (deliveries p) (refill s1)) as (G & N & T).
    destruct (handleEventsTimeout (deliveries p) (refill s1)) as [s2 [[]|e]];
      cbn [fst snd] in *.
    + destruct (IH s2) as (G' & N' & T').
      assert (G0 : completions_grow s (refill s1))
        by (apply completions_grow_same; exact Rc).
      split; [exact (completions_grow_trans _ _ _
                       (completions_grow_trans _ _ _ G0 G) G')|].
      split; [rewrite N', N, Rn; reflexivity|].
      intros Hd Ht. rewrite N, Rn in T'. apply T'; [exact Hd|].
      apply T; [reflexivity|]. apply Rt, T1, Ht.
    + split; [|split; [rewrite N, Rn; reflexivity|discriminate]].
      apply (completions_grow_trans _ (refill s1)); [|exact G].
      apply completions_grow_same; exact Rc.
Qed.

Lemma run_start_target (width height depth : nat) (n : Z) :
  target_ok (run_start (CapImgN_init width height depth n)).
Proof.
  split; left; [reflexivity|]. change (urb_remain _) with 1. lia.
Qed.

(** X11: A capture call that returns yields at least [n] completions, the ones
    the session has collected, with no read counted or outstanding any
    more: it never returns short of its target. *)
Theorem capture_returns_target (width height depth : nat) (target timeout_ms : Z)
    (tr : list poll) (s : CapImgN) (cs : list completion) :
  cap_imgn width height depth target timeout_ms tr = (s, Returned cs) ->
  target <= Z.of_nat (length cs) /\
  cs = completions s /\
  urb_remain s = 0 /\ outstanding s = 0 /\ running s = false.
Proof.
  intros H.
  pose proof (cap_imgn_pool_ok width height depth target timeout_ms tr) as [Hp _].
  cbv zeta in Hp. rewrite H in Hp. cbn [fst] in Hp.
  rewrite cap_imgn_unfold in H.
  set (s0 := run_start (CapImgN_init width height depth target)) in *.
  destruct (run_loop_target timeout_ms tr s0) as (_ & _ & T).
  destruct (run_loop timeout_ms tr s0) as [s1 [|e|]] eqn:E; try discriminate.
  injection H as <- <-. cbn [fst snd] in T.
  apply run_loop_done in E.
  specialize (T eq_refl (run_start_target width height depth target)).
  change (n s0) with target in T.
  destruct Hp as ((Ho & Hu) & _).
  change (urb_remain (set_running false s1)) with (urb_remain s1) in *.
  repeat split; try assumption; try reflexivity. lia.
Qed.

Lemma capture_returns_target_witness :
  1 <= Z.of_nat (length [(7, [x00; x00], 0)]) /\
  [(7, [x00; x00], 0)]
  = completions (fst (cap_imgn 1 1 2 1 2500 (script_single_read STATUS_OK))) /\
  urb_remain (fst (cap_imgn 1 1 2 1 2500 (script_single_read STATUS_OK))) = 0 /\
  outstanding (fst (cap_imgn 1 1 2 1 2500 (script_single_read STATUS_OK))) = 0 /\
  running (fst (cap_imgn 1 1 2 1 2500 (script_single_read STATUS_OK))) = false.
Proof.
  apply (capture_returns_target 1 1 2 1 2500 (script_single_read STATUS_OK)).
  vm_compute. reflexivity.
Defined.

(** X12: The completions are never taken back: what a call has collected when
    the transport has played part of a script are the first completions of
    what it has collected when the transport has played more of it. *)
Theorem capture_completions_only_grow (width height depth : nat)
    (n timeout_ms : Z) (pre post : list poll) :
  completions_grow
    (fst (cap_imgn width height depth n timeout_ms pre))
    (fst (cap_imgn width height depth n timeout_ms (pre ++ post))).
Proof.
  rewrite !cap_imgn_unfold, run_loop_app.
  destruct (run_loop timeout_ms pre _) as [s1 [|e|]]; cbn [fst];
    try apply completions_grow_refl.
  destruct (run_loop_target timeout_ms post s1) as (G & _).
  destruct (run_loop timeout_ms post s1) as [s2 [|e|]]; cbn [fst] in *;
    exact G.
Qed.

(** * Sync words inside a buffer *)

(** Lists two elements at a time. *)
Lemma list_pair_ind {A} (P : list A -> Prop) :
  P [] -> (forall a, P [a]) ->
  (forall a0 a1 l, P l -> P (a0 :: a1 :: l)) ->
  forall l, P l.
Proof.
  intros H0 H1 H2.
  assert (H : forall l, P l /\ forall a, P (a :: l)).
  { induction l as [|a l [IH1 IH2]]; split; auto. }
  intros l. apply H.
Qed.

(** The loop of [check_sync] as the source has it. *)
Lemma check_sync_loop_unfold (buff : bytes) (n : Z) :
  check_sync_loop buff n =
    if (length buff =? 0)%nat then Ok n
    else
      (do pack2u <- unpack16_le (slice buff 0 2);
       check_sync_loop (drop 2 buff) (if 0x4000 <=? pack2u then n + 1 else n))%result.
Proof.
  destruct buff as [|b0 [|b1 rest]]; reflexivity.
Qed.

Lemma check_sync_loop_word (b0 b1 : byte) (rest : bytes) (n : Z) :
  check_sync_loop (b0 :: b1 :: rest) n
  = check_sync_loop rest (if 0x4000 <=? le_value [b0; b1] then n + 1 else n).
Proof. reflexivity. Qed.

Lemma check_sync_loop_parity (buff : bytes) (n : Z) :
  if Nat.even (length buff)
  then exists k, check_sync_loop buff n = Ok k /\
                 n <= k <= n + Z.of_nat (length buff) / 2
  else check_sync_loop buff n = Raise StructError.
Proof.
  revert n. induction buff as [| b | b0 b1 rest IH] using list_pair_ind; intros n.
  - exists n. split; [reflexivity|]. change (Z.of_nat (length []) / 2) with 0. lia.
  - reflexivity.
  - rewrite check_sync_loop_word.
    change (Nat.even (length (b0 :: b1 :: rest))) with (Nat.even (length rest)).
    set (n' := if 0x4000 <=? le_value [b0; b1] then n + 1 else n).
    assert (Hn : n <= n' <= n + 1)
      by (unfold n'; destruct (0x4000 <=? le_value [b0; b1]); lia).
    specialize (IH n'). destruct (Nat.even (length rest)); [|exact IH].
    destruct IH as (k & E & Hk). exists k. split; [exact E|].
    cbn [length]. rewrite !Nat2Z.inj_succ.
    replace (Z.succ (Z.succ (Z.of_nat (length rest))))
      with (Z.of_nat (length rest) + 1 * 2) by lia.
    rewrite Z.div_add by lia. lia.
Qed.

(** X13: [check_sync] cannot unpack the last byte of a buffer of odd length and
    raises [struct.error]; on a buffer of even length it returns a count
    between 0 and the number of 16-bit words of the buffer. *)
Theorem check_sync_parity (buff : bytes) :
  if Nat.even (length buff)
  then exists k, check_sync buff = Ok k /\ 0 <= k <= Z.of_nat (length buff) / 2
  else check_sync buff = Raise StructError.
Proof.
  exact (check_sync_loop_parity buff 0).
Qed.

Lemma check_sync_loop_shift (buff : bytes) (n : Z) :
  check_sync_loop buff n
  = (do k <- check_sync_loop buff 0; Ok (n + k))%result.
Proof.
  revert n. induction buff as [| b | b0 b1 rest IH] using list_pair_ind; intros n.
  - cbn. f_equal. lia.
  - reflexivity.
  - rewrite !check_sync_loop_word.
    destruct (0x4000 <=? le_value [b0; b1]).
    + rewrite (IH (n + 1)), (IH (0 + 1)).
      destruct (check_sync_loop rest 0); cbn [rbind]; [f_equal; lia|reflexivity].
    + rewrite (IH n), (IH 0).
      destruct (check_sync_loop rest 0); cbn [rbind]; [f_equal; lia|reflexivity].
Qed.

Lemma check_sync_loop_app (a b : bytes) (n : Z) :
  Nat.even (length a) = true ->
  check_sync_loop (a ++ b) n
  = (do k <- check_sync_loop a n; check_sync_loop b k)%result.
Proof.
  revert n. induction a as [| a0 | a0 a1 rest IH] using list_pair_ind;
    intros n Hev.
  - reflexivity.
  - discriminate Hev.
  - change ((a0 :: a1 :: rest) ++ b) with (a0 :: a1 :: rest ++ b).
    rewrite !check_sync_loop_word. apply IH. exact Hev.
Qed.

(** X14: The sync words of two buffers add up: when the first buffer has an even
    number of bytes, [check_sync] of the two put together is the sum of
    [check_sync] of each, and raises when one of them raises. *)
Theorem check_sync_app (a b : bytes) :
  Nat.even (length a) = true ->
  check_sync (a ++ b)
  = (do ka <- check_sync a; do kb <- check_sync b; Ok (ka + kb))%result.
Proof.
  intros Hev. unfold check_sync. rewrite (check_sync_loop_app a b 0 Hev).
  destruct (check_sync_loop a 0) as [ka|e]; cbn [rbind]; [|reflexivity].
  apply check_sync_loop_shift.
Qed.

Lemma check_sync_app_witness :
  check_sync ([x02; x80; xff; x3f] ++ [x04; x80])
  = (do ka <- check_sync [x02; x80; xff; x3f];
     do kb <- check_sync [x04; x80]; Ok (ka + kb))%result.
Proof.
  apply (check_sync_app [x02; x80; xff; x3f] [x04; x80]). reflexivity.
Defined.

(** X15: On the little-endian encoding of a sequence of 16-bit samples,
    [check_sync] returns the number of samples that are 0x4000 or more: 0
    for pixel data, whose samples stay below 0x4000. *)
Theorem check_sync_counts_markers (samples : list Z) :
  Forall (fun v => 0 <= v < 65536) samples ->
  check_sync (concat (map (le_bytes 2) samples))
  = Ok (Z.of_nat (length (List.filter (fun v => 0x4000 <=? v) samples))).
Proof.
  assert (G : forall n,
            Forall (fun v => 0 <= v < 65536) samples ->
            check_sync_loop (concat (map (le_bytes 2) samples)) n
            = Ok (n + Z.of_nat (length (List.filter (fun v => 0x4000 <=? v) samples)))).
  { induction samples as [|v vs IH]; intros n Hs.
    - cbn. f_equal. lia.
    - inversion Hs as [|? ? Hv Hvs]; subst.
      cbn [map concat]. change (le_bytes 2 v) with [byte_of_Z v; byte_of_Z (v / 256)].
      cbn [app]. rewrite check_sync_loop_word.
      assert (E : le_value [byte_of_Z v; byte_of_Z (v / 256)] = v).
      { change [byte_of_Z v; byte_of_Z (v / 256)] with (le_bytes 2 v).
        rewrite le_value_le_bytes. apply Z.mod_small.
        change (256 ^ Z.of_nat 2) with 65536. lia. }
      rewrite E, (IH _ Hvs). cbn [List.filter].
      destruct (0x4000 <=? v); cbn [length]; f_equal; lia. }
  intros Hs. unfold check_sync. rewrite (G 0 Hs). reflexivity.
Qed.

Lemma check_sync_counts_markers_witness :
  check_sync (concat (map (le_bytes 2) [0x3FFF; 0x8002; 0; 0x4000]))
  = Ok (Z.of_nat (length (List.filter (fun v => 0x4000 <=? v)
                            [0x3FFF; 0x8002; 0; 0x4000]))).
Proof.
  apply (check_sync_counts_markers [0x3FFF; 0x8002; 0; 0x4000]).
  repeat constructor; lia.
Defined.

(** * Device information *)

Lemma validate_read_ok (expected actual : bytes) :
  validate_read expected actual = Ok tt <-> expected = actual.
Proof.
  unfold validate_read.
  destruct (List.list_eq_dec Byte.byte_eq_dec expected actual); split;
    intros; try reflexivity; try assumption; try discriminate; contradiction.
Qed.

Lemma byte_of_value (b : byte) (z : Z) : Z_of_byte b = z -> b = byte_of_Z z.
Proof. intros <-. symmetry. apply byte_of_Z_of_byte. Qed.

Lemma two_bytes_of_value (b0 b1 : byte) (hi lo : Z) :
  0 <= hi < 256 -> 0 <= lo < 256 ->
  Z_of_byte b1 + 256 * (Z_of_byte b0 + 256 * 0) = lo + 256 * hi ->
  b0 = byte_of_Z hi /\ b1 = byte_of_Z lo.
Proof.
  intros Hhi Hlo H. pose proof (Z_of_byte_range b0). pose proof (Z_of_byte_range b1).
  split; apply byte_of_value; lia.
Qed.

(** X16: [parse_info2] accepts two replies and no other: the two that the
    comment of [get_info2] quotes, 20 bytes each, for 1032 by 1032 and for
    2368 by 2340.  Every other buffer, a longer one with the same first 20
    bytes too, ends in an exception. *)
Theorem parse_info2_accepts (buff : bytes) (width height : Z) :
  parse_info2 buff = Ok (width, height) <->
  (buff = info2_dc5 /\ width = 1032 /\ height = 1032) \/
  (buff = info2_dc12 /\ width = 2368 /\ height = 2340).
Proof.
  split.
  - unfold parse_info2. intros H.
    destruct (validate_read _ (slice buff 0 6)) as [[]|] eqn:V1; [|discriminate].
    cbn [rbind] in H.
    destruct (unpack16ub (slice buff 6 8)) as [w|] eqn:W; [|discriminate].
    cbn [rbind] in H.
    destruct (validate_read _ (slice buff 8 10)) as [[]|] eqn:V2; [|discriminate].
    cbn [rbind] in H.
    destruct (unpack16ub (slice buff 10 12)) as [h|] eqn:Hh; [|discriminate].
    cbn [rbind] in H.
    destruct (validate_read _ (drop 12 buff)) as [[]|] eqn:V3; [|discriminate].
    cbn [rbind] in H.
    apply validate_read_ok in V1, V2, V3.
    apply unpack1_value in W as [LW ->], Hh as [LH ->].
    destruct buff as [|c0 [|c1 [|c2 [|c3 [|c4 [|c5 [|c6 [|c7 [|c8 [|c9
                     [|c10 [|c11 tl]]]]]]]]]]]]; try discriminate.
    cbn in V1, V2, V3, H. rewrite ?take_0, ?drop_0 in *. cbn in H.
    injection V1 as <- <- <- <- <- <-.
    injection V2 as <- <-. subst tl.
    destruct (_ || _) eqn:E in H; [|discriminate]. injection H as <- <-.
    apply orb_prop in E as [E|E]; apply andb_prop in E as [E1 E2];
      apply Z.eqb_eq in E1, E2; cbn in E1, E2.
    + left. 
      destruct (two_bytes_of_value c6 c7 4 8 ltac:(lia) ltac:(lia) E1) as [-> ->].
      destruct (two_bytes_of_value c10 c11 4 8 ltac:(lia) ltac:(lia) E2) as [-> ->].
      repeat split.
    + right.
      destruct (two_bytes_of_value c6 c7 9 64 ltac:(lia) ltac:(lia) E1) as [-> ->].
      destruct (two_bytes_of_value c10 c11 9 36 ltac:(lia) ltac:(lia) E2) as [-> ->].
      repeat split.
  - intros [(-> & -> & ->)|(-> & -> & ->)]; reflexivity.
Qed.

Lemma remove_nul_no_nul (s : bytes) : Forall (fun c => c <> x00) (remove_nul s).
Proof.
  unfold remove_nul. apply List.Forall_forall. intros c Hc.
  apply List.filter_In in Hc as [_ Hc]. intros ->. discriminate Hc.
Qed.

Lemma remove_nul_length (s : bytes) : (length (remove_nul s) <= length s)%nat.
Proof. unfold remove_nul. apply List.filter_length_le. Qed.

Lemma remove_nul_text (text : bytes) (k : nat) :
  Forall (fun c => c <> x00) text ->
  remove_nul (text ++ replicate k x00) = text.
Proof.
  intros H. unfold remove_nul. rewrite List.filter_app.
  assert (E1 : List.filter (fun c => negb (Byte.eqb c x00)) text = text).
  { induction H as [|c text Hc _ IH]; [reflexivity|]. cbn [List.filter].
    destruct (Byte.eqb c x00) eqn:E.
    - apply Byte.byte_dec_bl in E. contradiction.
    - cbn [negb]. now rewrite IH. }
  assert (E2 : List.filter (fun c => negb (Byte.eqb c x00)) (replicate k x00) = []).
  { induction k as [|k IH]; [reflexivity|]. cbn. exact IH. }
  rewrite E1, E2. apply app_nil_r.
Qed.

Lemma length_info_field (text : bytes) :
  (length text <= 32)%nat -> length (info_field text) = 32%nat.
Proof.
  intros H. unfold info_field. rewrite length_app, length_replicate. lia.
Qed.

(** X17: [parse_info1] refuses every buffer that has not 128 bytes with an
    assertion error; from a buffer of 128 bytes it returns four fields, each
    without a NUL character and of at most 32 characters. *)
Theorem parse_info1_fields (buff : bytes) :
  if (length buff =? 128)%nat
  then exists vendor model ver sn,
         parse_info1 buff = Ok (vendor, model, ver, sn) /\
         Forall field_text [vendor; model; ver; sn]
  else parse_info1 buff = Raise AssertionError.
Proof.
  unfold parse_info1, tostr. change 0x80%nat with 128%nat.
  destruct (Nat.eqb_spec (length buff) 128) as [HL|HL]; [|reflexivity].
  cbn [negb]. do 4 eexists. split; [reflexivity|].
  assert (F : forall lo hi, (hi - lo <= 32)%nat ->
                field_text (remove_nul (slice buff lo hi))).
  { intros lo hi H. split; [apply remove_nul_no_nul|].
    etransitivity; [apply remove_nul_length|].
    unfold slice. rewrite length_take. lia. }
  constructor; [apply F; lia|]. constructor; [apply F; lia|].
  constructor; [apply F; lia|]. constructor; [apply F; lia|]. constructor.
Qed.

(** X18: The identity record is read back field by field: for four texts
    without NUL of at most 32 characters, padded with NUL to 32 bytes each
    and put one after the other, [parse_info1] returns the four texts. *)
Theorem parse_info1_roundtrip (vendor model ver sn : bytes) :
  field_text vendor -> field_text model -> field_text ver -> field_text sn ->
  parse_info1 (info_field vendor ++ info_field model ++ info_field ver
               ++ info_field sn)
  = Ok (vendor, model, ver, sn).
Proof.
  intros [N1 L1] [N2 L2] [N3 L3] [N4 L4].
  pose proof (length_info_field vendor L1) as F1.
  pose proof (length_info_field model L2) as F2.
  pose proof (length_info_field ver L3) as F3.
  pose proof (length_info_field sn L4) as F4.
  set (f1 := info_field vendor) in *. set (f2 := info_field model) in *.
  set (f3 := info_field ver) in *. set (f4 := info_field sn) in *.
  unfold parse_info1, tostr. rewrite !length_app, F1, F2, F3, F4.
  cbn [Nat.add Nat.eqb negb].
  assert (S1 : slice (f1 ++ f2 ++ f3 ++ f4) 0x00 0x20 = f1).
  { unfold slice. rewrite drop_0. now apply take_app_length'. }
  assert (S2 : slice (f1 ++ f2 ++ f3 ++ f4) 0x20 0x40 = f2).
  { unfold slice. rewrite (drop_app_length' f1) by now rewrite F1.
    now apply take_app_length'. }
  assert (S3 : slice (f1 ++ f2 ++ f3 ++ f4) 0x40 0x60 = f3).
  { unfold slice. rewrite (app_assoc f1 f2).
    rewrite (drop_app_length' (f1 ++ f2)) by (rewrite length_app, F1, F2; reflexivity).
    now apply take_app_length'. }
  assert (S4 : slice (f1 ++ f2 ++ f3 ++ f4) 0x60 0x80 = f4).
  { unfold slice. rewrite (app_assoc f1 f2), (app_assoc (f1 ++ f2) f3).
    rewrite (drop_app_length' ((f1 ++ f2) ++ f3))
      by (rewrite !length_app, F1, F2, F3; reflexivity).
    apply take_ge. rewrite F4. reflexivity. }
  rewrite S1, S2, S3, S4. unfold f1, f2, f3, f4, info_field.
  now rewrite !remove_nul_text.
Qed.

(** The sample information block of the source: HAMAMATSU, C9730DK-11,
    1.21, 5403219. *)
Lemma parse_info1_roundtrip_witness :
  parse_info1
    (info_field [x48; x41; x4d; x41; x4d; x41; x54; x53; x55]
     ++ info_field [x43; x39; x37; x33; x30; x44; x4b; x2d; x31; x31]
     ++ info_field [x31; x2e; x32; x31]
     ++ info_field [x35; x34; x30; x33; x32; x31; x39])
  = Ok ([x48; x41; x4d; x41; x4d; x41; x54; x53; x55],
        [x43; x39; x37; x33; x30; x44; x4b; x2d; x31; x31],
        [x31; x2e; x32; x31],
        [x35; x34; x30; x33; x32; x31; x39]).
Proof.
  apply (parse_info1_roundtrip
           [x48; x41; x4d; x41; x4d; x41; x54; x53; x55]
           [x43; x39; x37; x33; x30; x44; x4b; x2d; x31; x31]
           [x31; x2e; x32; x31]
           [x35; x34; x30; x33; x32; x31; x39]);
    (split; [repeat constructor; discriminate | simpl; lia]).
Defined.

(** * Opening the device *)

(** X19: [open_dev] opens the first Hamamatsu DC5 or DC12 of the device list,
    whatever stands after it, and no device of another vendor or product;
    it fails exactly when the list holds no such device. *)
Theorem open_dev_first_supported (devices : list udev) :
  match open_dev devices with
  | Some d =>
      exists pre post,
        devices = pre ++ d :: post /\ supported d /\
        Forall (fun d' => ~ supported d') pre
  | None => Forall (fun d' => ~ supported d') devices
  end.
Proof.
  induction devices as [|d devices IH]; cbn [open_dev]; [constructor|].
  destruct (_ || _) eqn:E.
  - exists [], devices. split; [reflexivity|]. split; [|constructor].
    unfold supported.
    apply orb_prop in E as [E|E]; apply andb_prop in E as [E1 E2];
      apply Z.eqb_eq in E1, E2; auto.
  - assert (Hd : ~ supported d).
    { intros [Hv [Hp|Hp]]; rewrite Hv, Hp in E; discriminate E. }
    destruct (open_dev devices) as [d0|].
    + destruct IH as (pre & post & -> & Hs & Hpre).
      exists (d :: pre), post. split; [reflexivity|]. split; [exact Hs|].
      now constructor.
    + now constructor.
Qed.

(** * Exposure *)


(** X20: The exposure that [set_exp_setup] packs is the one the [unpack32] of
    [get_exp] reads: a number of milliseconds from 0 to 2^32 - 1 is packed
    in four bytes that unpack to it; any other number is refused by
    [struct.pack]. *)
Theorem exposure_roundtrip (exp_ms : Z) :
  if (0 <=? exp_ms) && (exp_ms <? 2 ^ 32)
  then exists payload,
         pack32 exp_ms = Ok payload /\ length payload = 4%nat /\
         unpack32ub payload = Ok exp_ms
  else pack32 exp_ms = Raise StructError.
Proof.
  unfold pack32, struct_pack. cbn [length Nat.eqb pack_items pack_item fmt_size].
  change (256 ^ Z.of_nat 4) with (2 ^ 32).
  destruct ((0 <=? exp_ms) && (exp_ms <? 2 ^ 32)) eqn:E; [|reflexivity].
  apply andb_prop in E as [E1 E2]. apply Z.leb_le in E1. apply Z.ltb_lt in E2.
  cbn [rbind]. eexists. split; [reflexivity|]. rewrite app_nil_r.
  split; [apply length_int_bytes|].
  unfold unpack32ub, unpack1, struct_unpack. rewrite length_int_bytes.
  cbn [calcsize foldr fmt_size Nat.add Nat.eqb rbind unpack_items].
  rewrite firstn_all2 by (rewrite length_int_bytes; lia).
  rewrite int_value_int_bytes; [reflexivity|].
  change (256 ^ Z.of_nat 4) with (2 ^ 32). lia.
Qed.


(** * Bad-pixel replacement *)

Lemma getpixel_inside (im : image) (x y : nat) :
  image_wf im -> (x < xsize im)%nat -> (y < ysize im)%nat ->
  exists p, getpixel im (x, y) = Ok p /\ pixels im !! (y * xsize im + x)%nat = Some p.
Proof.
  intros Hwf Hx Hy. unfold getpixel.
  destruct (Nat.ltb_spec x (xsize im)); [|lia].
  destruct (Nat.ltb_spec y (ysize im)); [|lia]. cbn [andb].
  destruct (pixels im !! (y * xsize im + x)%nat) as [p|] eqn:E.
  - now exists p.
  - apply lookup_ge_None in E. unfold image_wf in Hwf. nia.
Qed.

Lemma getpixel_outside (im : image) (x y : nat) :
  (xsize im <= x \/ ysize im <= y)%nat -> getpixel im (x, y) = Raise IndexError.
Proof.
  intros H. unfold getpixel.
  destruct (Nat.ltb_spec x (xsize im)); destruct (Nat.ltb_spec y (ysize im));
    cbn [andb]; try reflexivity. lia.
Qed.

Section BadPixelsFacts.
Variables width height : nat.
Variable float_ink : Z -> presult Z.

Lemma make_bpm_pixel_found (im : image) (y x : nat) (ret : gset (nat * nat)) :
  image_wf im -> (width <= xsize im)%nat -> (y < ysize im)%nat ->
  (x < width)%nat ->
  bpm_found width im y x ret ->
  exists ret', make_bpm_pixel im y x ret = Ok ret' /\ bpm_found width im y (S x) ret'.
Proof.
  intros Hwf HX Hy Hx Hret. unfold make_bpm_pixel.
  destruct (getpixel_inside im x y Hwf ltac:(lia) Hy) as (p & E & _).
  rewrite E. cbn [rbind].
  destruct (Z.eqb_spec p 0) as [Hp|Hp]; eexists; (split; [reflexivity|]);
    intros x' y'.
  - rewrite (Hret x' y'). split.
    + intros ([H|[-> H]] & Hrest); (split; [|exact Hrest]); [now left|].
      right. split; [reflexivity|lia].
    + intros ([H|[-> H]] & Hw & q & Eq & Hq).
      * split; [now left|]. split; [exact Hw|]. now exists q.
      * destruct (Nat.eq_dec x' x) as [->|Hne].
        -- rewrite E in Eq. injection Eq as <-. contradiction.
        -- split; [right; split; [reflexivity|lia]|].
           split; [exact Hw|]. now exists q.
  - rewrite elem_of_union, elem_of_singleton, (Hret x' y'). split.
    + intros [[= -> ->]|([H|[-> H]] & Hrest)].
      * split; [right; split; [reflexivity|lia]|]. split; [exact Hx|]. now exists p.
      * split; [now left|exact Hrest].
      * split; [right; split; [reflexivity|lia]|exact Hrest].
    + intros ([H|[-> H]] & Hrest).
      * right. split; [now left|exact Hrest].
      * destruct (Nat.eq_dec x' x) as [->|Hne]; [now left|].
        right. split; [right; split; [reflexivity|lia]|exact Hrest].
Qed.

Lemma make_bpm_row_found (im : image) (y : nat) (ret : gset (nat * nat)) :
  image_wf im -> (width <= xsize im)%nat -> (y < ysize im)%nat ->
  bpm_found width im y 0 ret ->
  exists ret',
    for_each (range width) (make_bpm_pixel im y) ret = Ok ret' /\
    bpm_found width im (S y) 0 ret'.
Proof.
  intros Hwf HX Hy Hret.
  destruct (for_seq_invariant (bpm_found width im y) 0 width (make_bpm_pixel im y) ret Hret)
    as (ret' & E & Hret').
  { intros x r Hx Hr. apply make_bpm_pixel_found; try assumption; lia. }
  exists ret'. split; [exact E|]. intros x' y'. rewrite (Hret' x' y').
  cbn [Nat.add]. split.
  - intros ([H|[-> H]] & Hrest); (split; [|exact Hrest]); left; lia.
  - intros ([H|[_ H]] & Hw & Hrest); [|lia].
    split; [|now split].
    destruct (Nat.eq_dec y' y) as [->|Hne]; [right; now split|left; lia].
Qed.

(** The set that [make_bpm] returns. *)
Lemma make_bpm_found (im : image) :
  image_wf im -> (width <= xsize im)%nat -> (height <= ysize im)%nat ->
  exists bad,
    make_bpm width height im = Ok bad /\
    forall x y,
      (x, y) ∈ bad <->
      (x < width)%nat /\ (y < height)%nat /\
      exists p, getpixel im (x, y) = Ok p /\ p <> 0.
Proof.
  intros Hwf HX HY. unfold make_bpm.
  destruct (for_seq_invariant (fun y => bpm_found width im y 0) 0 height
              (fun y ret => for_each (range width) (make_bpm_pixel im y) ret) ∅)
    as (bad & E & Hbad).
  { intros x y. rewrite elem_of_empty. split; [contradiction|].
    intros ([H|[_ H]] & _); lia. }
  { intros y r Hy Hr. apply make_bpm_row_found; try assumption; lia. }
  exists bad. split; [exact E|]. intros x y. rewrite (Hbad x y). cbn [Nat.add].
  split.
  - intros ([H|[_ H]] & Hw & Hrest); [|lia]. now repeat split.
  - intros (Hx & Hy & Hrest). split; [now left|now split].
Qed.

(** X22: [make_bpm] on an image that covers [width] by [height] returns the set
    of the positions inside [width] by [height] whose pixel is not 0, and
    those only. *)
Theorem make_bpm_marks_nonzero (im : image) :
  image_wf im -> (width <= xsize im)%nat -> (height <= ysize im)%nat ->
  exists bad,
    make_bpm width height im = Ok bad /\
    forall x y,
      (x, y) ∈ bad <->
      (x < width)%nat /\ (y < height)%nat /\
      exists p, getpixel im (x, y) = Ok p /\ p <> 0.
Proof.
  exact (make_bpm_found im).
Qed.

(** X23: [make_bpm] on an image that does not cover [width] by [height] raises
    [IndexError]: it returns no set from a calibration image that is too
    small. *)
Theorem make_bpm_small_image (im : image) :
  image_wf im -> (0 < width)%nat -> (0 < height)%nat ->
  (xsize im < width \/ ysize im < height)%nat ->
  make_bpm width height im = Raise IndexError.
Proof.
  intros Hwf Hw Hh Hsmall. unfold make_bpm.
  assert (Hrow_fail : forall y ret, (xsize im < width \/ ysize im <= y)%nat ->
            for_each (range width) (make_bpm_pixel im y) ret = Raise IndexError).
  { intros y ret Hy.
    destruct (Nat.lt_ge_cases y (ysize im)) as [Hin|Hout].
    - assert (Hx : (xsize im < width)%nat) by lia.
      rewrite (range_split (xsize im) width Hx).
      apply (for_each_raises_at (fun _ => True)); [exact I| |].
      + intros x r Hin' _. apply in_seq in Hin'. unfold make_bpm_pixel.
        destruct (getpixel_inside im x y Hwf ltac:(lia) Hin) as (p & -> & _).
        cbn [rbind]. destruct (p =? 0); eexists; (split; [reflexivity|exact I]).
      + intros r _. unfold make_bpm_pixel.
        now rewrite getpixel_outside by lia.
    - rewrite (range_split 0 width Hw). cbn [seq app for_each].
      unfold make_bpm_pixel at 1. now rewrite getpixel_outside by lia. }
  destruct (Nat.lt_ge_cases (xsize im) width) as [Hx|Hx].
  - rewrite (range_split 0 height Hh). cbn [seq app for_each].
    rewrite Hrow_fail by (left; exact Hx). reflexivity.
  - assert (Hy : (ysize im < height)%nat) by lia.
    rewrite (range_split (ysize im) height Hy).
    apply (for_each_raises_at (fun _ => True)); [exact I| |].
    + intros y r Hin _. apply in_seq in Hin.
      destruct (for_each_invariant (fun _ => True) (range width)
                  (make_bpm_pixel im y) r I) as (r' & E & _).
      { intros x r0 Hx0 _. apply in_seq in Hx0. unfold make_bpm_pixel.
        destruct (getpixel_inside im x y Hwf ltac:(lia) ltac:(lia)) as (p & -> & _).
        cbn [rbind]. destruct (p =? 0); eexists; (split; [reflexivity|exact I]). }
      exists r'. now split.
    + intros r _. apply Hrow_fail. right. lia.
Qed.

End BadPixelsFacts.

(** ** The median of the pixels around a pixel *)

Lemma filter_length_Permutation {A} (f : A -> bool) (l l' : list A) :
  l ≡ₚ l' -> length (List.filter f l) = length (List.filter f l').
Proof.
  induction 1 as [|x l l' _ IH|x y l|l l' l'' _ IH1 _ IH2]; cbn [List.filter].
  - reflexivity.
  - destruct (f x); cbn [length]; now rewrite IH.
  - destruct (f x), (f y); reflexivity.
  - now rewrite IH1.
Qed.

Lemma filter_length_all {A} (f : A -> bool) (l : list A) :
  (forall x, In x l -> f x = true) -> length (List.filter f l) = length l.
Proof.
  induction l as [|x l IH]; intros H; [reflexivity|]. cbn [List.filter].
  rewrite (H x (or_introl eq_refl)). cbn [length]. rewrite IH; [reflexivity|].
  intros y Hy. apply H. now right.
Qed.

(** The median of nine values. *)
Lemma median_nine (vs : list Z) :
  length vs = 9%nat -> exists m, median vs = POk (PyZ m) /\ is_median9 m vs.
Proof.
  intros HL. unfold median. cbv zeta.
  pose proof (merge_sort_Permutation Z.le vs) as HP.
  pose proof (StronglySorted_merge_sort Z.le vs) as HS.
  set (s := merge_sort Z.le vs) in *.
  assert (Hs : length s = 9%nat) by (now rewrite (Permutation_length HP)).
  rewrite Hs. change ((9 =? 0)%nat) with false.
  change ((9 mod 2 =? 1)%nat) with true. change (9 / 2)%nat with 4%nat. cbv iota.
  destruct (s !! 4%nat) as [m|] eqn:E; [|apply lookup_ge_None in E; lia].
  exists m. split; [reflexivity|].
  pose proof (take_drop_middle s 4 m E) as Hmid.
  rewrite <- Hmid in HS.
  apply StronglySorted_app in HS as (Hcross & _ & Hright).
  apply StronglySorted_cons in Hright as [Hge _].
  assert (Hle : forall v, In v (take 4 s) -> v <= m).
  { intros v Hv. apply Hcross; [now apply list_elem_of_In|]. left. }
  assert (Hge' : forall v, In v (drop 5 s) -> m <= v).
  { intros v Hv. rewrite List.Forall_forall in Hge. now apply Hge. }
  assert (Lt : length (take 4 s) = 4%nat) by (rewrite length_take; lia).
  assert (Ld : length (drop 5 s) = 4%nat) by (rewrite length_drop; lia).
  split; [|split].
  - apply (Permutation_in m HP). rewrite <- Hmid. apply in_or_app. right. now left.
  - rewrite <- (filter_length_Permutation _ _ _ HP), <- Hmid.
    rewrite List.filter_app, length_app. cbn [List.filter].
    rewrite (filter_length_all _ (take 4 s))
      by (intros v Hv; apply Z.leb_le; now apply Hle).
    rewrite Z.leb_refl. cbn [length]. lia.
  - rewrite <- (filter_length_Permutation _ _ _ HP), <- Hmid.
    rewrite List.filter_app, length_app. cbn [List.filter].
    rewrite Z.leb_refl. cbn [length].
    rewrite (filter_length_all _ (drop 5 s))
      by (intros v Hv; apply Z.leb_le; now apply Hge').
    lia.
Qed.



Section MedianFacts.
Variables width height : nat.

Lemma im_med3_pixel_inside (im : image) (xp y dy : Z) (pixs : list Z) (p : Z) :
  0 <= y + dy < Z.of_nat height ->
  getpixel im (Z.to_nat xp, Z.to_nat (y + dy)) = Ok p ->
  im_med3_pixel height im xp y dy pixs = Ok (pixs ++ [p]).
Proof.
  intros Hy E. unfold im_med3_pixel.
  destruct (Z.ltb_spec (y + dy) 0); [lia|].
  destruct (Z.leb_spec (Z.of_nat height) (y + dy)); [lia|].
  cbn [orb]. now rewrite E.
Qed.

Lemma im_med3_pixel_outside (im : image) (xp y dy : Z) (pixs : list Z) :
  y + dy < 0 \/ Z.of_nat height <= y + dy ->
  im_med3_pixel height im xp y dy pixs = Ok pixs.
Proof.
  intros Hy. unfold im_med3_pixel.
  destruct (Z.ltb_spec (y + dy) 0); [reflexivity|].
  destruct (Z.leb_spec (Z.of_nat height) (y + dy)); [reflexivity|lia].
Qed.

Lemma im_med3_column_inside (im : image) (x y dx : Z) (pixs : list Z) :
  0 <= x + dx < Z.of_nat width ->
  im_med3_column width height im x y dx pixs
  = for_each [-1; 0; 1] (im_med3_pixel height im (x + dx) y) pixs.
Proof.
  intros Hx. unfold im_med3_column.
  destruct (Z.ltb_spec (x + dx) 0); [lia|].
  destruct (Z.leb_spec (Z.of_nat width) (x + dx)); [lia|]. reflexivity.
Qed.

Lemma im_med3_column_outside (im : image) (x y dx : Z) (pixs : list Z) :
  x + dx < 0 \/ Z.of_nat width <= x + dx ->
  im_med3_column width height im x y dx pixs = Ok pixs.
Proof.
  intros Hx. unfold im_med3_column.
  destruct (Z.ltb_spec (x + dx) 0); [reflexivity|].
  destruct (Z.leb_spec (Z.of_nat width) (x + dx)); [reflexivity|lia].
Qed.

(** The window of a position away from the border. *)
Lemma im_med3_window_median (im : image) (x y : nat) :
  image_wf im -> (width <= xsize im)%nat -> (height <= ysize im)%nat ->
  (1 <= x)%nat -> (x + 1 < width)%nat -> (1 <= y)%nat -> (y + 1 < height)%nat ->
  exists vs m,
    window im x y = map Ok vs /\
    im_med3 width height im (Z.of_nat x) (Z.of_nat y) = POk (PyZ m) /\
    is_median9 m vs.
Proof.
  intros Hwf HX HY Hx1 Hx2 Hy1 Hy2.
  assert (G : forall x' y', (x' < width)%nat -> (y' < height)%nat ->
            exists p, getpixel im (x', y') = Ok p).
  { intros x' y' Hx' Hy'.
    destruct (getpixel_inside im x' y' Hwf ltac:(lia) ltac:(lia)) as (p & E & _).
    now exists p. }
  destruct (G (x - 1) (y - 1))%nat as [p1 E1]; [lia|lia|].
  destruct (G (x - 1) y)%nat as [p2 E2]; [lia|lia|].
  destruct (G (x - 1) (y + 1))%nat as [p3 E3]; [lia|lia|].
  destruct (G x (y - 1))%nat as [p4 E4]; [lia|lia|].
  destruct (G x y)%nat as [p5 E5]; [lia|lia|].
  destruct (G x (y + 1))%nat as [p6 E6]; [lia|lia|].
  destruct (G (x + 1) (y - 1))%nat as [p7 E7]; [lia|lia|].
  destruct (G (x + 1) y)%nat as [p8 E8]; [lia|lia|].
  destruct (G (x + 1) (y + 1))%nat as [p9 E9]; [lia|lia|].
  exists [p1; p2; p3; p4; p5; p6; p7; p8; p9].
  destruct (median_nine [p1; p2; p3; p4; p5; p6; p7; p8; p9] eq_refl)
    as (m & Em & Hm).
  exists m. split; [|split; [|exact Hm]].
  - unfold window. now rewrite E1, E2, E3, E4, E5, E6, E7, E8, E9.
  - unfold im_med3. cbn [for_each].
    assert (T : forall a d : nat,
              Z.to_nat (Z.of_nat a + -1) = (a - 1)%nat /\
              Z.to_nat (Z.of_nat a + 0) = a /\
              Z.to_nat (Z.of_nat a + 1) = (a + 1)%nat) by (intros; lia).
    destruct (T x 0%nat) as (Tx1 & Tx2 & Tx3).
    destruct (T y 0%nat) as (Ty1 & Ty2 & Ty3).
    rewrite (im_med3_column_inside im _ _ (-1)) by lia. cbn [for_each].
    rewrite (im_med3_pixel_inside im _ _ (-1) _ p1) by (lia || now rewrite Tx1, Ty1).
    cbn [rbind].
    rewrite (im_med3_pixel_inside im _ _ 0 _ p2) by (lia || now rewrite Tx1, Ty2).
    cbn [rbind].
    rewrite (im_med3_pixel_inside im _ _ 1 _ p3) by (lia || now rewrite Tx1, Ty3).
    cbn [rbind].
    rewrite (im_med3_column_inside im _ _ 0) by lia. cbn [for_each].
    rewrite (im_med3_pixel_inside im _ _ (-1) _ p4) by (lia || now rewrite Tx2, Ty1).
    cbn [rbind].
    rewrite (im_med3_pixel_inside im _ _ 0 _ p5) by (lia || now rewrite Tx2, Ty2).
    cbn [rbind].
    rewrite (im_med3_pixel_inside im _ _ 1 _ p6) by (lia || now rewrite Tx2, Ty3).
    cbn [rbind].
    rewrite (im_med3_column_inside im _ _ 1) by lia. cbn [for_each].
    rewrite (im_med3_pixel_inside im _ _ (-1) _ p7) by (lia || now rewrite Tx3, Ty1).
    cbn [rbind].
    rewrite (im_med3_pixel_inside im _ _ 0 _ p8) by (lia || now rewrite Tx3, Ty2).
    cbn [rbind].
    rewrite (im_med3_pixel_inside im _ _ 1 _ p9) by (lia || now rewrite Tx3, Ty3).
    cbn [rbind plift pbind app]. exact Em.
Qed.

(** X24: Away from the border, [im_med3] returns a median of the nine pixels of
    the 3 by 3 window around (x, y): one of these pixels, an integer, with
    at least five of the nine at most it and at least five at least it. *)
Theorem im_med3_interior (im : image) (x y : nat) :
  image_wf im -> (width <= xsize im)%nat -> (height <= ysize im)%nat ->
  (1 <= x)%nat -> (x + 1 < width)%nat -> (1 <= y)%nat -> (y + 1 < height)%nat ->
  exists vs m,
    window im x y = map Ok vs /\
    im_med3 width height im (Z.of_nat x) (Z.of_nat y) = POk (PyZ m) /\
    is_median9 m vs.
Proof.
  exact (im_med3_window_median im x y).
Qed.

(** X26: For a position with no neighbour inside [width] by [height],
    [im_med3] has no pixel to take the median of and raises
    [StatisticsError]. *)
Theorem im_med3_far_outside (im : image) (x y : Z) :
  x + 1 < 0 \/ Z.of_nat width <= x - 1 \/
  y + 1 < 0 \/ Z.of_nat height <= y - 1 ->
  im_med3 width height im x y = PRaise StatisticsError.
Proof.
  intros H. unfold im_med3.
  assert (E : for_each [-1; 0; 1] (im_med3_column width height im x y) [] = Ok []).
  { cbn [for_each].
    assert (C : forall dx, -1 <= dx <= 1 ->
              im_med3_column width height im x y dx [] = Ok []).
    { intros dx Hdx.
      destruct (Z.ltb_spec (x + dx) 0) as [Hl|Hl];
        [apply im_med3_column_outside; lia|].
      destruct (Z.leb_spec (Z.of_nat width) (x + dx)) as [Hr|Hr];
        [apply im_med3_column_outside; lia|].
      rewrite im_med3_column_inside by lia. cbn [for_each].
      rewrite im_med3_pixel_outside by lia. cbn [rbind].
      rewrite im_med3_pixel_outside by lia. cbn [rbind].
      rewrite im_med3_pixel_outside by lia. reflexivity. }
    rewrite (C (-1)) by lia. cbn [rbind]. rewrite (C 0) by lia. cbn [rbind].
    rewrite (C 1) by lia. reflexivity. }
  rewrite E. reflexivity.
Qed.






End MedianFacts.

(** ** Replacing the bad pixels *)

Lemma putpixel_ok (ret ret' : image) (x y : nat) (z : Z) :
  putpixel ret (x, y) z = Ok ret' ->
  (x < xsize ret)%nat /\ (y < ysize ret)%nat /\
  ret' = mk_image (xsize ret) (ysize ret)
           (<[(y * xsize ret + x)%nat := z]> (pixels ret)).
Proof.
  unfold putpixel.
  destruct (Nat.ltb_spec x (xsize ret)); [|discriminate].
  destruct (Nat.ltb_spec y (ysize ret)); [|discriminate].
  cbn [andb]. intros [= <-]. now repeat split.
Qed.

Lemma pixel_index_inj (k x y x' y' : nat) :
  (x < k)%nat -> (x' < k)%nat -> (y * k + x = y' * k + x')%nat ->
  y = y' /\ x = x'.
Proof.
  intros Hx Hx' E.
  assert (Hy : y = y').
  { destruct (Nat.lt_trichotomy y y') as [L|[L|L]]; [|exact L|].
    - assert (y' * k >= (y + 1) * k)%nat by (apply Nat.mul_le_mono_r; lia). lia.
    - assert (y * k >= (y' + 1) * k)%nat by (apply Nat.mul_le_mono_r; lia). lia. }
  subst y'. lia.
Qed.

Lemma getpixel_putpixel_ne (ret ret' : image) (x y x' y' : nat) (z : Z) :
  putpixel ret (x, y) z = Ok ret' -> (x', y') <> (x, y) ->
  getpixel ret' (x', y') = getpixel ret (x', y').
Proof.
  intros H Hne. apply putpixel_ok in H as (Hx & Hy & ->).
  unfold getpixel. cbn [xsize ysize pixels].
  destruct (Nat.ltb_spec x' (xsize ret)); [|reflexivity].
  destruct (Nat.ltb_spec y' (ysize ret)); [|reflexivity]. cbn [andb].
  rewrite list_lookup_insert_ne; [reflexivity|].
  intros E. apply Hne. destruct (pixel_index_inj (xsize ret) x' y' x y) as [-> ->]; auto.
Qed.

Lemma getpixel_putpixel_eq (ret ret' : image) (x y : nat) (z : Z) :
  image_wf ret -> putpixel ret (x, y) z = Ok ret' ->
  getpixel ret' (x, y) = Ok z /\ image_wf ret' /\
  xsize ret' = xsize ret /\ ysize ret' = ysize ret.
Proof.
  intros Hwf H. apply putpixel_ok in H as (Hx & Hy & ->).
  unfold getpixel, image_wf in *. cbn [xsize ysize pixels].
  destruct (Nat.ltb_spec x (xsize ret)); [|lia].
  destruct (Nat.ltb_spec y (ysize ret)); [|lia]. cbn [andb].
  rewrite list_lookup_insert_eq by nia. rewrite length_insert. now repeat split.
Qed.

Section ReplaceFacts.
Variables width height : nat.
Variable float_ink : Z -> presult Z.

(** A turn of the loop of [do_bpr]: a value that depends on the image
    [im] only is put in [ret]. *)
Lemma do_bpr_over_cons (x y : nat) (order : list (nat * nat)) (im ret : image) :
  do_bpr_over width height float_ink ((x, y) :: order) im ret =
    (do z <- bpr_value width height float_ink im (x, y);
     do ret' <- plift (putpixel ret (x, y) z);
     do_bpr_over width height float_ink order im ret')%presult.
Proof.
  cbn [do_bpr_over]. unfold bpr_value. cbn [fst snd].
  destruct (im_med3 width height im (Z.of_nat x) (Z.of_nat y)) as [[z|sum]|e];
    cbn [pbind putpixel_num]; try reflexivity.
  destruct (float_ink sum); reflexivity.
Qed.

Lemma do_bpr_over_ok (order : list (nat * nat)) (im ret r : image) :
  image_wf ret -> NoDup order ->
  do_bpr_over width height float_ink order im ret = POk r ->
  image_wf r /\ xsize r = xsize ret /\ ysize r = ysize ret /\
  (forall x y, ~ In (x, y) order -> getpixel r (x, y) = getpixel ret (x, y)) /\
  (forall x y, In (x, y) order ->
     exists z, bpr_value width height float_ink im (x, y) = POk z /\
               getpixel r (x, y) = Ok z).
Proof.
  revert ret. induction order as [|[x y] order IH]; intros ret Hwf Hnd H.
  - cbn in H. injection H as <-. repeat split; try assumption; try reflexivity.
    intros x y [].
  - rewrite do_bpr_over_cons in H.
    destruct (bpr_value width height float_ink im (x, y)) as [z|] eqn:Ev;
      [|discriminate].
    cbn [pbind] in H.
    destruct (putpixel ret (x, y) z) as [ret'|] eqn:Ep; [|discriminate].
    cbn [plift pbind] in H.
    destruct (getpixel_putpixel_eq ret ret' x y z Hwf Ep) as (Gz & Hwf' & HX & HY).
    apply NoDup_cons in Hnd as [Hnotin Hnd].
    destruct (IH ret' Hwf' Hnd H) as (I1 & I2 & I3 & I4 & I5).
    split; [exact I1|]. split; [congruence|]. split; [congruence|]. split.
    + intros x' y' Hni. rewrite I4 by (intros Hin; apply Hni; now right).
      apply (getpixel_putpixel_ne ret ret' x y x' y' z Ep).
      intros E. apply Hni. left. now symmetry.
    + intros x' y' [[= <- <-]|Hin].
      * exists z. split; [exact Ev|].
        rewrite I4; [exact Gz|]. intros Hin. apply Hnotin.
        now apply list_elem_of_In.
      * now apply I5.
Qed.

(** The image that [do_bpr] returns. *)
Lemma do_bpr_marked (im badimg r : image) :
  image_wf im -> image_wf badimg ->
  (width <= xsize badimg)%nat -> (height <= ysize badimg)%nat ->
  do_bpr width height float_ink im badimg = POk r ->
  xsize r = xsize im /\ ysize r = ysize im /\
  forall x y,
    (~ marked_bad width height badimg x y ->
     getpixel r (x, y) = getpixel im (x, y)) /\
    (marked_bad width height badimg x y ->
     exists z, bpr_value width height float_ink im (x, y) = POk z /\
               getpixel r (x, y) = Ok z).
Proof.
  intros Hwf Hwfb HX HY H. unfold do_bpr in H.
  destruct (make_bpm_found width height badimg Hwfb HX HY)
    as (bad & Eb & Hbad).
  rewrite Eb in H. cbn [plift pbind] in H.
  destruct (do_bpr_over_ok (elements bad) im im r Hwf (NoDup_elements bad) H)
    as (_ & HXr & HYr & Hkeep & Hput).
  split; [exact HXr|]. split; [exact HYr|]. intros x y.
  assert (Hin : In (x, y) (elements bad) <-> marked_bad width height badimg x y).
  { rewrite <- list_elem_of_In, elem_of_elements. apply Hbad. }
  split.
  - intros Hgood. apply Hkeep. now rewrite Hin.
  - intros Hb. apply Hput. now rewrite Hin.
Qed.

(** X27: [do_bpr] changes the bad pixels and nothing else: the image it
    returns has the size of [im]; every pixel that [badimg] does not mark,
    inside [width] by [height] or not, is the pixel of [im]; every marked
    pixel holds the median that [im_med3] takes around it in [im] itself,
    not in the image under correction. *)
Theorem do_bpr_replaces_marked (im badimg r : image) :
  image_wf im -> image_wf badimg ->
  (width <= xsize badimg)%nat -> (height <= ysize badimg)%nat ->
  do_bpr width height float_ink im badimg = POk r ->
  xsize r = xsize im /\ ysize r = ysize im /\
  forall x y,
    (~ marked_bad width height badimg x y ->
     getpixel r (x, y) = getpixel im (x, y)) /\
    (marked_bad width height badimg x y ->
     exists z, bpr_value width height float_ink im (x, y) = POk z /\
               getpixel r (x, y) = Ok z).
Proof.
  exact (do_bpr_marked im badimg r).
Qed.


(** X29: The order in which the set of bad pixels is gone through does not
    matter: when the loop of [do_bpr] returns an image for one order, it
    returns the same image for every other order. *)
Theorem do_bpr_order_irrelevant (order1 order2 : list (nat * nat))
    (im ret r : image) :
  order1 ≡ₚ order2 ->
  do_bpr_over width height float_ink order1 im ret = POk r ->
  do_bpr_over width height float_ink order2 im ret = POk r.
Proof.
  intros HP. revert ret r.
  induction HP as [|[x y] l l' _ IH|[x y] [x' y'] l|l l' l'' _ IH1 _ IH2];
    intros ret r H.
  - exact H.
  - rewrite do_bpr_over_cons in *.
    destruct (bpr_value width height float_ink im (x, y)) as [z|]; [|discriminate].
    cbn [pbind] in *.
    destruct (putpixel ret (x, y) z) as [ret'|]; [|discriminate].
    cbn [plift pbind] in *. now apply IH.
  - rewrite !do_bpr_over_cons in *.
    destruct (bpr_value width height float_ink im (x', y')) as [z'|] eqn:Ev';
      [|discriminate].
    cbn [pbind] in H.
    destruct (putpixel ret (x', y') z') as [r1|] eqn:E1; [|discriminate].
    cbn [plift pbind] in H.
    rewrite do_bpr_over_cons in H.
    destruct (bpr_value width height float_ink im (x, y)) as [z|] eqn:Ev;
      [|discriminate].
    cbn [pbind] in H |- *.
    destruct (putpixel r1 (x, y) z) as [r2|] eqn:E2; [|discriminate].
    cbn [plift pbind] in H.
    apply putpixel_ok in E1 as (Hx' & Hy' & ->).
    apply putpixel_ok in E2 as (Hx & Hy & ->). cbn [xsize ysize pixels] in *.
    unfold putpixel at 1.
    destruct (Nat.ltb_spec x (xsize ret)); [|lia].
    destruct (Nat.ltb_spec y (ysize ret)); [|lia]. cbn [andb plift pbind].
    rewrite do_bpr_over_cons, Ev'. cbn [pbind].
    unfold putpixel at 1. cbn [xsize ysize pixels].
    destruct (Nat.ltb_spec x' (xsize ret)); [|lia].
    destruct (Nat.ltb_spec y' (ysize ret)); [|lia]. cbn [andb plift pbind].
    destruct (Nat.eq_dec (y * xsize ret + x) (y' * xsize ret + x'))%nat as [Heq|Hne].
    + destruct (pixel_index_inj (xsize ret) x y x' y') as [-> ->]; auto.
      rewrite Ev in Ev'. injection Ev' as <-. exact H.
    + rewrite list_insert_insert_ne by congruence. exact H.
  - apply IH2, IH1, H.
Qed.

End ReplaceFacts.

(** ** The bad-pixel replacement on an image of 3 by 3 *)

Lemma make_bpm_marks_nonzero_witness :
  exists bad,
    make_bpm 3 3 bpr_example_corner = Ok bad /\
    forall x y,
      (x, y) ∈ bad <->
      (x < 3)%nat /\ (y < 3)%nat /\
      exists p, getpixel bpr_example_corner (x, y) = Ok p /\ p <> 0.
Proof.
  apply (make_bpm_marks_nonzero 3 3 bpr_example_corner);
    [reflexivity | cbn; lia | cbn; lia].
Defined.

Lemma make_bpm_small_image_witness :
  make_bpm 4 3 bpr_example_bad = Raise IndexError.
Proof.
  apply (make_bpm_small_image 4 3 bpr_example_bad);
    [reflexivity | lia | lia | cbn; lia].
Defined.

Lemma im_med3_interior_witness :
  exists vs m,
    window bpr_example_im 1 1 = map Ok vs /\
    im_med3 3 3 bpr_example_im (Z.of_nat 1) (Z.of_nat 1) = POk (PyZ m) /\
    is_median9 m vs.
Proof.
  apply (im_med3_interior 3 3 bpr_example_im 1 1);
    [reflexivity | cbn; lia | cbn; lia | lia | lia | lia | lia].
Defined.

Lemma im_med3_far_outside_witness :
  im_med3 3 3 bpr_example_im 5 0 = PRaise StatisticsError.
Proof.
  apply (im_med3_far_outside 3 3 bpr_example_im 5 0). lia.
Defined.


Lemma do_bpr_replaces_marked_witness :
  let r := mk_image 3 3 [9; 1; 8; 2; 5; 3; 4; 6; 5] in
  xsize r = xsize bpr_example_im /\ ysize r = ysize bpr_example_im /\
  forall x y,
    (~ marked_bad 3 3 bpr_example_bad x y ->
     getpixel r (x, y) = getpixel bpr_example_im (x, y)) /\
    (marked_bad 3 3 bpr_example_bad x y ->
     exists z, bpr_value 3 3 ink_truncates bpr_example_im (x, y) = POk z /\
               getpixel r (x, y) = Ok z).
Proof.
  apply (do_bpr_replaces_marked 3 3 ink_truncates bpr_example_im bpr_example_bad
           (mk_image 3 3 [9; 1; 8; 2; 5; 3; 4; 6; 5]));
    [reflexivity | reflexivity | cbn; lia | cbn; lia | vm_compute; reflexivity].
Defined.


Lemma do_bpr_order_irrelevant_witness :
  do_bpr_over 3 3 ink_truncates [(0, 0); (1, 1)]%nat bpr_example_im bpr_example_im
  = POk (mk_image 3 3 [4; 1; 8; 2; 5; 3; 4; 6; 5]).
Proof.
  apply (do_bpr_order_irrelevant 3 3 ink_truncates
           [(1, 1); (0, 0)]%nat [(0, 0); (1, 1)]%nat
           bpr_example_im bpr_example_im
           (mk_image 3 3 [4; 1; 8; 2; 5; 3; 4; 6; 5]));
    [apply perm_swap | vm_compute; reflexivity].
Defined.
